(** * Age-verification audit: the fast audit route

    A shallow embedding of [src/nextjs-app/src/app/api/audit/fast/route.ts]:
    the response-recovery parser [parseRobustJSON] and the batched
    dispatcher [POST].

    Text is modelled as [string] (8-bit characters): the model's response
    text, URLs and error messages.  JavaScript values built by the code
    (the result of [JSON.parse], the object of the key/value extraction)
    are [jval]; their strings are lists of UTF-16 code units ([list N]), so
    [JSON.parse] escapes such as [\u20ac] are represented exactly.
    JavaScript numbers are modelled as rationals ([Q]): every number the
    route compares or stores here is a short decimal, and the model does
    not follow floating-point rounding. *)

From Stdlib Require Import String Ascii List Bool Arith ZArith NArith QArith Lia.
Import ListNotations.
Open Scope nat_scope.
Set Warnings "-register-all".

(* ------------------------------------------------------------------ *)
(** ** Characters and strings *)

Module Text.

Definition code (a : ascii) : nat := nat_of_ascii a.

(** [\w] without the [u] flag: [A-Za-z0-9_]. *)
Definition is_word (a : ascii) : bool :=
  let n := code a in
  ((65 <=? n) && (n <=? 90)) || ((97 <=? n) && (n <=? 122))
  || ((48 <=? n) && (n <=? 57)) || (n =? 95).

Definition is_digit (a : ascii) : bool :=
  let n := code a in (48 <=? n) && (n <=? 57).

(** [\s] restricted to 8-bit characters: tab, LF, VT, FF, CR, space and
    no-break space (U+00A0).  [String.prototype.trim] removes the same set. *)
Definition is_space (a : ascii) : bool :=
  let n := code a in
  ((9 <=? n) && (n <=? 13)) || (n =? 32) || (n =? 160).

(** [String.prototype.toLowerCase] on 8-bit characters: [A-Z] and the
    Latin-1 capitals U+00C0..U+00DE (except U+00D7) move up by 32. *)
Definition lower_char (a : ascii) : ascii :=
  let n := code a in
  if ((65 <=? n) && (n <=? 90)) || ((192 <=? n) && (n <=? 222) && negb (n =? 215))
  then ascii_of_nat (n + 32) else a.

Fixpoint toLowerCase (s : string) : string :=
  match s with
  | EmptyString => EmptyString
  | String a s' => String (lower_char a) (toLowerCase s')
  end.

(** [String.prototype.includes]. *)
Fixpoint includes (hay needle : string) : bool :=
  prefix needle hay ||
  match hay with
  | EmptyString => false
  | String _ h' => includes h' needle
  end.

Fixpoint trim_start (s : string) : string :=
  match s with
  | String a s' => if is_space a then trim_start s' else s
  | EmptyString => EmptyString
  end.

Definition rev_str (s : string) : string :=
  string_of_list_ascii (rev (list_ascii_of_string s)).

(** [String.prototype.trim]. *)
Definition trim (s : string) : string := rev_str (trim_start (rev_str (trim_start s))).

(** Strings of JavaScript values: UTF-16 code units. *)
Definition units (s : string) : list N := map N_of_ascii (list_ascii_of_string s).

(** Decimal rendering of a natural number ([`${n}`]). *)
Fixpoint digits_rev (fuel n : nat) : list ascii :=
  match fuel with
  | 0 => []
  | S f =>
      ascii_of_nat (48 + n mod 10) ::
      (if n <? 10 then [] else digits_rev f (n / 10))
  end.

Definition nat_to_string (n : nat) : string :=
  string_of_list_ascii (rev (digits_rev (S n) n)).

End Text.

(* ------------------------------------------------------------------ *)
(** ** Regular expressions with JavaScript's backtracking semantics

    Alternatives are tried left to right, [*] is greedy and an iteration of
    [*] that matches the empty string is rejected, as in ECMAScript's
    RepeatMatcher.  None of the route's patterns has a capture group under a
    quantifier, so the reset of inner captures between iterations does not
    arise. *)

Module Regex.
Import Text.

Inductive re : Type :=
| REps : re
| RChar : (ascii -> bool) -> re
| RSeq : re -> re -> re
| RAlt : re -> re -> re
| RStar : re -> re
| RGroup : nat -> re -> re.

(** Capture groups: most recent binding first; a pair of positions. *)
Definition caps := list (nat * (nat * nat)).

Fixpoint cap_lookup (c : caps) (n : nat) : option (nat * nat) :=
  match c with
  | [] => None
  | (m, p) :: c' => if m =? n then Some p else cap_lookup c' n
  end.

Section Match.
Variable s : string.

(** Continuation-passing matcher.  The inner loop of [RStar] is bounded by
    the length of the remaining input: every accepted iteration advances. *)
Fixpoint m (r : re) (i : nat) (c : caps)
    (k : nat -> caps -> option (nat * caps)) {struct r} : option (nat * caps) :=
  match r with
  | REps => k i c
  | RChar p =>
      match get i s with
      | Some a => if p a then k (S i) c else None
      | None => None
      end
  | RSeq r1 r2 => m r1 i c (fun j c' => m r2 j c' k)
  | RAlt r1 r2 =>
      match m r1 i c k with
      | Some x => Some x
      | None => m r2 i c k
      end
  | RStar r1 =>
      (fix loop (fuel : nat) (i : nat) (c : caps) {struct fuel} :=
         match fuel with
         | 0 => k i c
         | S f =>
             match m r1 i c (fun j c' => if i <? j then loop f j c' else None) with
             | Some x => Some x
             | None => k i c
             end
         end) (S (String.length s - i)) i c
  | RGroup n r1 => m r1 i c (fun j c' => k j ((n, (i, j)) :: c'))
  end.

Definition exec_at (r : re) (i : nat) : option (nat * caps) :=
  m r i [] (fun j c => Some (j, c)).

Fixpoint search_from (r : re) (fuel i : nat) : option (nat * nat * caps) :=
  match exec_at r i with
  | Some (j, c) => Some (i, j, c)
  | None =>
      match fuel with
      | 0 => None
      | S f => search_from r f (S i)
      end
  end.

(** [RegExpBuiltinExec] from [lastIndex]: the leftmost match at or after
    [from]. *)
Definition search (r : re) (from : nat) : option (nat * nat * caps) :=
  if String.length s <? from then None else search_from r (String.length s - from) from.

Definition slice (i j : nat) : string := substring i (j - i) s.

Definition group (c : caps) (n : nat) : option string :=
  match cap_lookup c n with
  | Some (i, j) => Some (slice i j)
  | None => None
  end.

(** Replacement templates: literal text and [$n]. *)
Inductive piece := TLit (t : string) | TGrp (n : nat).

Definition expand (tmpl : list piece) (c : caps) : string :=
  fold_right (fun p acc =>
    match p with
    | TLit t => t ++ acc
    | TGrp n => match group c n with Some g => g | None => EmptyString end ++ acc
    end)%string EmptyString tmpl.

(** [s.replace(/r/g, tmpl)]: [next] is the next source position, [last]
    the regexp's [lastIndex]. *)
Fixpoint replace_loop (r : re) (tmpl : list piece) (fuel next last : nat) : string :=
  match fuel with
  | 0 => slice next (String.length s)
  | S f =>
      match search r last with
      | None => slice next (String.length s)
      | Some (st, en, c) =>
          (slice next st ++ expand tmpl c ++
           replace_loop r tmpl f en (if Nat.eqb en st then S en else en))%string
      end
  end.

Definition replace_all (r : re) (tmpl : list piece) : string :=
  replace_loop r tmpl (S (S (String.length s))) 0 0.

(** [s.match(r)] without the [g] flag: the whole match and the captures. *)
Definition rmatch (r : re) : option (string * caps) :=
  match search r 0 with
  | Some (st, en, c) => Some (slice st en, c)
  | None => None
  end.

End Match.

(** Pattern-building helpers. *)
Definition chr (a : ascii) : re := RChar (fun b => Ascii.eqb a b).
Definition cls (p : ascii -> bool) : re := RChar p.
Definition any : re := RChar (fun _ => true).
Definition plus (r : re) : re := RSeq r (RStar r).
Definition opt (r : re) : re := RAlt r REps.
Fixpoint lit (t : string) : re :=
  match t with
  | EmptyString => REps
  | String a t' => RSeq (chr a) (lit t')
  end.
(** A literal under the [i] flag: ASCII case folding (for an 8-bit
    character at or above 128 the canonical form is never ASCII). *)
Fixpoint ilit (t : string) : re :=
  match t with
  | EmptyString => REps
  | String a t' =>
      RSeq (RChar (fun b => Ascii.eqb (lower_char a) (lower_char b))) (ilit t')
  end.
Definition word : re := cls is_word.
Definition space : re := cls is_space.
Definition digit : re := cls is_digit.

End Regex.

(* ------------------------------------------------------------------ *)
(** ** The route's regular expressions

    In the comments below the double quote of the source patterns is
    written [\x22], its equivalent escape in a JavaScript pattern, and a
    [*] before a closing parenthesis is written [{0,}]. *)

Module Patterns.
Import Text Regex.

Definition dq : ascii := ascii_of_nat 34.

Fixpoint seqs (rs : list re) : re :=
  match rs with
  | [] => REps
  | [r] => r
  | r :: rs' => RSeq r (seqs rs')
  end.

(** A negated class [[^...]] and a class [[...]]: listed characters and a
    predicate for [\s] or [\d]. *)
Definition notin (cs : list ascii) (p : ascii -> bool) : re :=
  cls (fun a => negb (existsb (Ascii.eqb a) cs || p a)).
Definition oneof (cs : list ascii) (p : ascii -> bool) : re :=
  cls (fun a => existsb (Ascii.eqb a) cs || p a).
Definition none_c : ascii -> bool := fun _ => false.

(** [/\{[\s\S]*\}/] *)
Definition json_span : re := seqs [chr "{"; RStar any; chr "}"].

(** [(\w+):\s*] *)
Definition key : re := seqs [RGroup 1 (plus word); chr ":"; RStar space].

(** Pre-processing (all with [g]). *)
(** [/(\w+):\s*([^\x22,\s][^,}]{0,})/g] *)
Definition pre1 : re :=
  seqs [key; RGroup 2 (seqs [notin [dq; ","%char] is_space; RStar (notin [","%char; "}"%char] none_c)])].
(** [/(\w+):\s*\x22([^\x22]{0,})\x22/g] *)
Definition pre2 : re :=
  seqs [key; chr dq; RGroup 2 (RStar (notin [dq] none_c)); chr dq].
(** [/(\w+):\s*null/g] *)
Definition pre3 : re := seqs [key; lit "null"].
(** [/(\w+):\s*(true|false)/g] *)
Definition pre4 : re := seqs [key; RGroup 2 (RAlt (lit "true") (lit "false"))].

(** Manual fixes of attempt 3 (all with [g]). *)
(** [/'/g] *)
Definition fix1 : re := chr "'".
(** [/(\w+):\s*/g] *)
Definition fix2 : re := key.
(** [/,(\s*[}\]])/g] *)
Definition fix3 : re := seqs [chr ","; RGroup 1 (seqs [RStar space; oneof ["}"%char; "]"%char] none_c])].
(** [/:\s*(true|false)\s*([,}])/g] *)
Definition fix4 : re :=
  seqs [chr ":"; RStar space; RGroup 1 (RAlt (lit "true") (lit "false"));
        RStar space; RGroup 2 (oneof [","%char; "}"%char] none_c)].
(** [/:\s*(\d+\.\d+)\s*([,}])/g] *)
Definition fix5 : re :=
  seqs [chr ":"; RStar space; RGroup 1 (seqs [plus digit; chr "."; plus digit]);
        RStar space; RGroup 2 (oneof [","%char; "}"%char] none_c)].
(** [/[\x00-\x1F\x7F-\x9F]/g] *)
Definition fix6 : re :=
  cls (fun a => let n := code a in (n <=? 31) || ((127 <=? n) && (n <=? 159))).
(** [/\s+/g] *)
Definition fix7 : re := plus space.
(** [/:\s*null\s*([,}])/g] *)
Definition fix8 : re :=
  seqs [chr ":"; RStar space; lit "null"; RStar space; RGroup 1 (oneof [","%char; "}"%char] none_c)].
(** [/:\s*\x22\x22\s*([,}])/g] *)
Definition fix9 : re :=
  seqs [chr ":"; RStar space; chr dq; chr dq; RStar space; RGroup 1 (oneof [","%char; "}"%char] none_c)].
(** [/([^\x22])\s*(\w+):\s*/g] *)
Definition fix10 : re :=
  seqs [RGroup 1 (notin [dq] none_c); RStar space; RGroup 2 (plus word); chr ":";
        RStar space].
(** [/\{\s*(\w+):\s*/g] *)
Definition fix11 : re := seqs [chr "{"; RStar space; key].
(** [/(\w+):\s*(\d+\.\d+)/g] *)
Definition fix12 : re :=
  seqs [key; RGroup 2 (seqs [plus digit; chr "."; plus digit])].
(** [/(\w+):\s*(\d+)/g] *)
Definition fix13 : re := seqs [key; RGroup 2 (plus digit)].

(** Key/value extraction of attempt 4 (all with [i]):
    [name[\x22\s]*:[\x22\s]*] is [field name]. *)
Definition qs : re := RStar (oneof [dq] is_space).
Definition field (name : string) : re := seqs [ilit name; qs; chr ":"; qs].
Definition true_false : re := RAlt (ilit "true") (ilit "false").

(** [/has_age_verification[\x22\s]*:[\x22\s]*(true|false)/i] *)
Definition hv1 : re := seqs [field "has_age_verification"; RGroup 1 true_false].
(** [/has_age_verification[\x22\s]*:[\x22\s]*\x22?(true|false)\x22?/i] *)
Definition hv2 : re :=
  seqs [field "has_age_verification"; opt (chr dq); RGroup 1 true_false; opt (chr dq)].
(** [/has_age_verification[\x22\s]*:[\x22\s]*([^\x22,\s}]+)/i] *)
Definition hv3 : re :=
  seqs [field "has_age_verification"; RGroup 1 (plus (notin [dq; ","%char; "}"%char] is_space))].
(** [/has_age_verification[\x22\s]*:[\x22\s]*null/i] *)
Definition hv4 : re := seqs [field "has_age_verification"; ilit "null"].

(** [/verification_type[\x22\s]*:[\x22\s]*\x22([^\x22]+)\x22?/i] *)
Definition vt1 : re :=
  seqs [field "verification_type"; chr dq; RGroup 1 (plus (notin [dq] none_c));
        opt (chr dq)].
(** [/verification_type[\x22\s]*:[\x22\s]*([^\x22,\s}]+)/i] *)
Definition vt2 : re :=
  seqs [field "verification_type"; RGroup 1 (plus (notin [dq; ","%char; "}"%char] is_space))].
(** [/verification_type[\x22\s]*:[\x22\s]*\x22([^\x22]{0,})\x22?/i] *)
Definition vt3 : re :=
  seqs [field "verification_type"; chr dq; RGroup 1 (RStar (notin [dq] none_c));
        opt (chr dq)].
(** [/verification_type[\x22\s]*:[\x22\s]*null/i] *)
Definition vt4 : re := seqs [field "verification_type"; ilit "null"].

(** [[0-9.]+] *)
Definition num_chars : re := plus (oneof ["."%char] is_digit).
(** [/confidence_score[\x22\s]*:[\x22\s]*([0-9.]+)/i] *)
Definition cs1 : re := seqs [field "confidence_score"; RGroup 1 num_chars].
(** [/confidence_score[\x22\s]*:[\x22\s]*\x22([0-9.]+)\x22/i] *)
Definition cs2 : re :=
  seqs [field "confidence_score"; chr dq; RGroup 1 num_chars; chr dq].
(** [/confidence[\x22\s]*:[\x22\s]*([0-9.]+)/i] *)
Definition cs3 : re := seqs [field "confidence"; RGroup 1 num_chars].
(** [/confidence_score[\x22\s]*:[\x22\s]*([0-9]+)/i] *)
Definition cs4 : re := seqs [field "confidence_score"; RGroup 1 (plus digit)].

(** [/details[\x22\s]*:[\x22\s]*\x22([^\x22]+)\x22/i] *)
Definition d1 : re :=
  seqs [field "details"; chr dq; RGroup 1 (plus (notin [dq] none_c)); chr dq].
(** [/details[\x22\s]*:[\x22\s]*([^\x22]+)/i] *)
Definition d2 : re := seqs [field "details"; RGroup 1 (plus (notin [dq] none_c))].
(** [/details[\x22\s]*:[\x22\s]*\x22([^\x22]{0,})\x22?/i] *)
Definition d3 : re :=
  seqs [field "details"; chr dq; RGroup 1 (RStar (notin [dq] none_c)); opt (chr dq)].

(** [/\x22/g] *)
Definition dquote : re := chr dq.

End Patterns.

(* ------------------------------------------------------------------ *)
(** ** JavaScript values, [JSON.parse] and [parseFloat] *)

Module Json.
Import Text.

Inductive jval : Type :=
| JUndef : jval
| JNull : jval
| JBool : bool -> jval
| JNum : Q -> jval
| JStr : list N -> jval
| JArr : list jval -> jval
| JObj : list (list N * jval) -> jval.

(** JavaScript truthiness. *)
Definition truthy (v : jval) : bool :=
  match v with
  | JUndef | JNull => false
  | JBool b => b
  | JNum q => negb (Qeq_bool q 0)
  | JStr u => negb (match u with [] => true | _ => false end)
  | JArr _ | JObj _ => true
  end.

(** [a || b]. *)
Definition js_or (a b : jval) : jval := if truthy a then a else b.

(** Property read [v.k]: for an object the last binding of the key (a
    duplicate key of [JSON.parse] overwrites the earlier value); every
    other value has none of the route's property names. *)
Definition get_prop (v : jval) (k : string) : jval :=
  match v with
  | JObj l =>
      match find (fun p => match list_eq_dec N.eq_dec (fst p) (units k) with
                           | left _ => true | right _ => false end) (rev l) with
      | Some (_, x) => x
      | None => JUndef
      end
  | _ => JUndef
  end.

Definition str (s : string) : jval := JStr (units s).

Definition is_ch (c : ascii) (a : ascii) : bool := Ascii.eqb a c.

(** JSON whitespace: space, tab, LF, CR. *)
Definition json_ws (a : ascii) : bool :=
  let n := code a in (n =? 32) || (n =? 9) || (n =? 10) || (n =? 13).

Fixpoint skip_ws (l : list ascii) : list ascii :=
  match l with
  | a :: l' => if json_ws a then skip_ws l' else l
  | [] => []
  end.

Fixpoint take_digits (l : list ascii) : list ascii * list ascii :=
  match l with
  | a :: l' =>
      if is_digit a then let (ds, r) := take_digits l' in (a :: ds, r) else ([], l)
  | [] => ([], [])
  end.

Definition digits_Z (ds : list ascii) : Z :=
  fold_left (fun acc a => acc * 10 + Z.of_nat (code a - 48))%Z ds 0%Z.

(** [m * 10^e] as a rational. *)
Definition scale (m : Z) (e : Z) : Q :=
  if (0 <=? e)%Z then inject_Z (m * 10 ^ e) else Qmake m (Z.to_pos (10 ^ (- e))).

Definition hex_val (a : ascii) : option N :=
  let n := code a in
  if (48 <=? n) && (n <=? 57) then Some (N.of_nat (n - 48))
  else if (65 <=? n) && (n <=? 70) then Some (N.of_nat (n - 55))
  else if (97 <=? n) && (n <=? 102) then Some (N.of_nat (n - 87))
  else None.

(** The body of a JSON string after its opening quote. *)
Fixpoint pstring (l : list ascii) : option (list N * list ascii) :=
  match l with
  | [] => None
  | a :: r =>
      if code a =? 34 then Some ([], r)
      else if code a =? 92 then
        match r with
        | [] => None
        | e :: r1 =>
            let simple (u : N) :=
              match pstring r1 with Some (us, r') => Some (u :: us, r') | None => None end in
            let n := code e in
            if n =? 34 then simple 34%N
            else if n =? 92 then simple 92%N
            else if n =? 47 then simple 47%N
            else if n =? 98 then simple 8%N
            else if n =? 102 then simple 12%N
            else if n =? 110 then simple 10%N
            else if n =? 114 then simple 13%N
            else if n =? 116 then simple 9%N
            else if n =? 117 then
              match r1 with
              | h1 :: h2 :: h3 :: h4 :: r2 =>
                  match hex_val h1, hex_val h2, hex_val h3, hex_val h4 with
                  | Some x1, Some x2, Some x3, Some x4 =>
                      match pstring r2 with
                      | Some (us, r') =>
                          Some ((((x1 * 16 + x2) * 16 + x3) * 16 + x4)%N :: us, r')
                      | None => None
                      end
                  | _, _, _, _ => None
                  end
              | _ => None
              end
            else None
        end
      else if code a <? 32 then None
      else match pstring r with Some (us, r') => Some (N_of_ascii a :: us, r') | None => None end
  end.

(** A JSON number: [-?(0|[1-9]\d{0,})(\.\d+)?([eE][+-]?\d+)?]. *)
Definition pnumber (l : list ascii) : option (jval * list ascii) :=
  let '(neg, l1) := match l with
                    | a :: r => if is_ch "-" a then (true, r) else (false, l)
                    | [] => (false, l)
                    end in
  let ipart :=
    match l1 with
    | a :: r =>
        if is_ch "0" a then Some ([a], r)
        else if is_digit a then let (ds, r') := take_digits r in Some (a :: ds, r')
        else None
    | [] => None
    end in
  match ipart with
  | None => None
  | Some (ip, l2) =>
      let fpart :=
        match l2 with
        | a :: r =>
            if is_ch "." a then
              match take_digits r with
              | ([], _) => None
              | (fd, r') => Some (fd, r')
              end
            else Some ([], l2)
        | [] => Some ([], l2)
        end in
      match fpart with
      | None => None
      | Some (fp, l3) =>
          let epart :=
            match l3 with
            | a :: r =>
                if is_ch "e" a || is_ch "E" a then
                  let '(eneg, r1) := match r with
                                     | b :: r' => if is_ch "-" b then (true, r')
                                                  else if is_ch "+" b then (false, r')
                                                  else (false, r)
                                     | [] => (false, r)
                                     end in
                  match take_digits r1 with
                  | ([], _) => None
                  | (ed, r') => Some ((if eneg then - digits_Z ed else digits_Z ed)%Z, r')
                  end
                else Some (0%Z, l3)
            | [] => Some (0%Z, l3)
            end in
          match epart with
          | None => None
          | Some (e, l4) =>
              let mant := digits_Z (ip ++ fp) in
              Some (JNum (scale (if neg then - mant else mant)%Z
                                (e - Z.of_nat (List.length fp))%Z), l4)
          end
      end
  end.

Definition plit (w : string) (v : jval) (l : list ascii) : option (jval * list ascii) :=
  let lw := list_ascii_of_string w in
  if list_eq_dec ascii_dec (firstn (List.length lw) l) lw
  then Some (v, skipn (List.length lw) l) else None.

(** Recursive descent; [fuel] bounds the nesting and is taken from the
    input length, and every call but the first reads a character. *)
Fixpoint pvalue (fuel : nat) (l : list ascii) {struct fuel} : option (jval * list ascii) :=
  match fuel with
  | 0 => None
  | S f =>
      match skip_ws l with
      | [] => None
      | a :: r =>
          if is_ch "{" a then
            match skip_ws r with
            | b :: r' => if is_ch "}" b then Some (JObj [], r') else pmembers f [] r
            | [] => None
            end
          else if is_ch "[" a then
            match skip_ws r with
            | b :: r' => if is_ch "]" b then Some (JArr [], r') else pelements f [] r
            | [] => None
            end
          else if code a =? 34 then
            match pstring r with Some (u, r') => Some (JStr u, r') | None => None end
          else if is_ch "t" a then plit "true" (JBool true) (a :: r)
          else if is_ch "f" a then plit "false" (JBool false) (a :: r)
          else if is_ch "n" a then plit "null" JNull (a :: r)
          else pnumber (a :: r)
      end
  end
with pmembers (fuel : nat) (acc : list (list N * jval)) (l : list ascii) {struct fuel}
    : option (jval * list ascii) :=
  match fuel with
  | 0 => None
  | S f =>
      match skip_ws l with
      | a :: r =>
          if code a =? 34 then
            match pstring r with
            | Some (k, r1) =>
                match skip_ws r1 with
                | c :: r2 =>
                    if is_ch ":" c then
                      match pvalue f r2 with
                      | Some (v, r3) =>
                          match skip_ws r3 with
                          | d :: r4 =>
                              if is_ch "," d then pmembers f (acc ++ [(k, v)]) r4
                              else if is_ch "}" d then Some (JObj (acc ++ [(k, v)]), r4)
                              else None
                          | [] => None
                          end
                      | None => None
                      end
                    else None
                | [] => None
                end
            | None => None
            end
          else None
      | [] => None
      end
  end
with pelements (fuel : nat) (acc : list jval) (l : list ascii) {struct fuel}
    : option (jval * list ascii) :=
  match fuel with
  | 0 => None
  | S f =>
      match pvalue f l with
      | Some (v, r) =>
          match skip_ws r with
          | d :: r' =>
              if is_ch "," d then pelements f (acc ++ [v]) r'
              else if is_ch "]" d then Some (JArr (acc ++ [v]), r')
              else None
          | [] => None
          end
      | None => None
      end
  end.

(** [JSON.parse]: [None] when it throws a [SyntaxError]. *)
Definition JSON_parse (s : string) : option jval :=
  let l := list_ascii_of_string s in
  match pvalue (2 * List.length l + 2) l with
  | Some (v, r) => match skip_ws r with [] => Some v | _ => None end
  | None => None
  end.

(** [parseFloat] on a capture of [[0-9.]+]: the longest prefix of the form
    [digits [. digits]] with at least one digit; [None] is [NaN].  Signs,
    white space, exponents and [Infinity] cannot occur in such a capture. *)
Definition parseFloat (s : string) : option Q :=
  let (ip, r) := take_digits (list_ascii_of_string s) in
  let fp := match r with
            | a :: r' => if is_ch "." a then fst (take_digits r') else []
            | [] => []
            end in
  match ip ++ fp with
  | [] => None
  | ds => Some (scale (digits_Z ds) (- Z.of_nat (List.length fp)))
  end.

End Json.

(* ------------------------------------------------------------------ *)
(** ** [parseRobustJSON] *)

Module Parser.
Import Text Regex Patterns Json.
Local Open Scope string_scope.

Definition dqs : string := String dq EmptyString.

(** Replacement templates of the source, with the double quote written
    [\x22] as in the patterns. *)
(** ['\x22$1\x22: \x22$2\x22'] *)
Definition t_kv : list piece :=
  [TLit dqs; TGrp 1; TLit (dqs ++ ": " ++ dqs); TGrp 2; TLit dqs].
(** ['\x22$1\x22: \x22null\x22'] *)
Definition t_knull : list piece :=
  [TLit dqs; TGrp 1; TLit (dqs ++ ": " ++ dqs ++ "null" ++ dqs)].
(** ['\x22$1\x22: '] *)
Definition t_k : list piece := [TLit dqs; TGrp 1; TLit (dqs ++ ": ")].
(** [':\x22$1\x22$2'] *)
Definition t_colon_q : list piece := [TLit (":" ++ dqs); TGrp 1; TLit dqs; TGrp 2].
(** [':\x22null\x22$1'] and [':\x22empty\x22$1'] *)
Definition t_colon_word (w : string) : list piece :=
  [TLit (":" ++ dqs ++ w ++ dqs); TGrp 1].
(** ['$1, \x22$2\x22: '] *)
Definition t_after : list piece := [TGrp 1; TLit (", " ++ dqs); TGrp 2; TLit (dqs ++ ": ")].
(** ['{ \x22$1\x22: '] *)
Definition t_open : list piece := [TLit ("{ " ++ dqs); TGrp 1; TLit (dqs ++ ": ")].

(** The pre-processing of [jsonString] (lines 92-100). *)
Definition preprocess (jsonString : string) : string :=
  let s1 := replace_all jsonString pre1 t_kv in
  let s2 := replace_all s1 pre2 t_kv in
  let s3 := replace_all s2 pre3 t_knull in
  replace_all s3 pre4 t_kv.

(** The manual fixes of attempt 3 (lines 122-149). *)
Definition manual_fix (pre : string) : string :=
  let s1 := replace_all pre fix1 [TLit dqs] in
  let s2 := replace_all s1 fix2 t_k in
  let s3 := replace_all s2 fix3 [TGrp 1] in
  let s4 := replace_all s3 fix4 t_colon_q in
  let s5 := replace_all s4 fix5 t_colon_q in
  let s6 := replace_all s5 fix6 [] in
  let s7 := replace_all s6 fix7 [TLit " "] in
  let s8 := replace_all s7 fix8 (t_colon_word "null") in
  let s9 := replace_all s8 fix9 (t_colon_word "empty") in
  let s10 := replace_all s9 fix10 t_after in
  let s11 := replace_all s10 fix11 t_open in
  let s12 := replace_all s11 fix12 t_kv in
  let s13 := replace_all s12 fix13 t_kv in
  trim s13.

(** [str.replace(/\x22/g, '')]. *)
Definition strip_quotes (s : string) : string := replace_all s dquote [].

Definition nonempty (s : string) : bool := negb (String.eqb s EmptyString).

(** Attempt 4: the object [keyValuePairs] under construction; [None] is an
    absent key. *)
Record kv := {
  kv_hv : option bool;
  kv_vt : option string;
  kv_cs : option Q;
  kv_details : option string
}.

(** Lines 168-179: the first pattern that matches decides. *)
Fixpoint hv_loop (content : string) (ps : list re) : option bool :=
  match ps with
  | [] => None
  | p :: ps' =>
      match rmatch content p with
      | Some (m0, c) =>
          if includes m0 "null" then Some false
          else
            match group content c 1 with
            | Some v =>
                let v := toLowerCase v in
                Some (String.eqb v "true" || String.eqb v "yes" || String.eqb v "1")
            | None => Some false
            end
      | None => hv_loop content ps'
      end
  end.

(** Lines 189-199: the first pattern that matches ends the loop, and sets
    the key only for ['null'] or a non-empty capture. *)
Fixpoint vt_loop (content : string) (ps : list re) : option string :=
  match ps with
  | [] => None
  | p :: ps' =>
      match rmatch content p with
      | Some (m0, c) =>
          if includes m0 "null" then Some "none"
          else
            match group content c 1 with
            | Some g => if nonempty g then Some (trim (strip_quotes g)) else None
            | None => None
            end
      | None => vt_loop content ps'
      end
  end.

(** [score > 1 ? score / 100 : score] *)
Definition normalize_score (score : Q) : Q :=
  if Qlt_le_dec 1 score then score / 100 else score.

(** Lines 209-222: a match whose value is [NaN] or falls outside [[0,1]]
    after normalisation moves on to the next pattern. *)
Fixpoint cs_loop (content : string) (ps : list re) : option Q :=
  match ps with
  | [] => None
  | p :: ps' =>
      match rmatch content p with
      | Some (_, c) =>
          match option_map parseFloat (group content c 1) with
          | Some (Some score) =>
              let ns := normalize_score score in
              if Qle_bool 0 ns && Qle_bool ns 1 then Some ns else cs_loop content ps'
          | _ => cs_loop content ps'
          end
      | None => cs_loop content ps'
      end
  end.

(** Lines 231-237: only a match with a non-empty capture ends the loop. *)
Fixpoint details_loop (content : string) (ps : list re) : option string :=
  match ps with
  | [] => None
  | p :: ps' =>
      match rmatch content p with
      | Some (_, c) =>
          match group content c 1 with
          | Some g => if nonempty g then Some (trim (strip_quotes g))
                      else details_loop content ps'
          | None => details_loop content ps'
          end
      | None => details_loop content ps'
      end
  end.

Definition extract (content : string) : kv := {|
  kv_hv := hv_loop content [hv1; hv2; hv3; hv4];
  kv_vt := vt_loop content [vt1; vt2; vt3; vt4];
  kv_cs := cs_loop content [cs1; cs2; cs3; cs4];
  kv_details := details_loop content [d1; d2; d3] |}.

(** Lines 240-259: defaults for absent or falsy keys. *)
Definition infer_hv (content : string) : bool :=
  let l := toLowerCase content in
  includes l "age verification" || includes l "birth date" ||
  includes l "age gate" || includes l "verification".

Definition with_defaults (content : string) (k : kv) : bool * string * Q * string :=
  let hv := match kv_hv k with Some b => b | None => infer_hv content end in
  let vt := match kv_vt k with
            | Some t => if nonempty t then t else if hv then "detected" else "none"
            | None => if hv then "detected" else "none"
            end in
  let cs := match kv_cs k with
            | Some q => if negb (Qeq_bool q 0) then q else if hv then 7 # 10 else 1 # 2
            | None => if hv then 7 # 10 else 1 # 2
            end in
  let d := match kv_details k with
           | Some t => if nonempty t then t else "Parsed from AI response"
           | None => "Parsed from AI response"
           end in
  (hv, vt, cs, d).

(** The object returned by attempt 4.  Its key order is not modelled:
    the route only reads its properties. *)
Definition key_value_pairs (content : string) : jval :=
  let '(hv, vt, cs, d) := with_defaults content (extract content) in
  JObj [(units "has_age_verification", JBool hv); (units "verification_type", str vt);
        (units "confidence_score", JNum cs); (units "details", str d)].

(** Lines 272-289: the final fallback on the raw content. *)
Definition raw_fallback (content : string) : jval :=
  let l := toLowerCase content in
  let hv := includes l "age verification" || includes l "birth date" ||
            includes l "age gate" || includes l "verification" ||
            includes l "over 18" || includes l "adult content" in
  JObj [(units "has_age_verification", JBool hv);
        (units "verification_type", str (if hv then "detected" else "none"));
        (units "confidence_score", JNum (if hv then 3 # 5 else 2 # 5));
        (units "details", str "Parsed from raw content analysis")].

Section Robust.

(** The third-party [jsonrepair] routine: [None] when it throws. *)
Variable jsonrepair : string -> option string.

(** [parseRobustJSON(content, website)]; [JNull] is its [null]. *)
Definition parseRobustJSON (content : string) : jval :=
  match rmatch content json_span with
  | None => JNull
  | Some (jsonString, _) =>
      let pre := preprocess jsonString in
      match JSON_parse pre with
      | Some v => v
      | None =>
          match option_map JSON_parse (jsonrepair pre) with
          | Some (Some v) => v
          | _ =>
              match JSON_parse (manual_fix pre) with
              | Some v => v
              | None =>
                  match key_value_pairs content with
                  | JObj (_ :: _) as o => o   (* Object.keys(keyValuePairs).length > 0 *)
                  | _ => raw_fallback content
                  end
              end
          end
      end
  end.

End Robust.

End Parser.

(* ------------------------------------------------------------------ *)
(** ** The route handler [POST] *)

Module Route.
Import Text Json Parser.
Local Open Scope string_scope.

Record config := {
  timeout : Z;
  maxRetries : nat;
  healthCheckTimeout : Z;
  batchSize : nat;
  maxTotalTime : Z;
  enableTotalTimeout : bool
}.

Definition OLLAMA_CONFIG : config := {|
  timeout := 60000;
  maxRetries := 2;
  healthCheckTimeout := 10000;
  batchSize := 3;
  maxTotalTime := 600000;
  enableTotalTimeout := true |}.

Record WebsiteData := { url : string; name : option string; category : option string }.

(** [AuditResult]; its [name] and [category] are [result_name] and
    [result_category] here, and the fields read from a parsed value hold
    whatever JavaScript value the parse produced. *)
Record AuditResult := {
  website : string;
  has_age_verification : jval;
  verification_type : jval;
  confidence_score : jval;
  details : jval;
  timestamp : string;
  result_name : option string;
  result_category : option string
}.

(** Thrown [Error] objects and their [String(error)]. *)
Record js_error := { err_name : string; message : string }.

Definition Error (msg : string) : js_error := {| err_name := "Error"; message := msg |}.

Definition error_toString (e : js_error) : string :=
  if String.eqb (err_name e) "" then message e
  else if String.eqb (message e) "" then err_name e
  else err_name e ++ ": " ++ message e.

(** [`${n / 1000}`] for a positive integer [n]: at most three decimals. *)
Definition show_thousandths (n : Z) : string :=
  let q := Z.to_nat (n / 1000) in
  let r := Z.to_nat (n mod 1000) in
  if Nat.eqb r 0 then nat_to_string q
  else
    let d1 := r / 100 in
    let d2 := (r / 10) mod 10 in
    let d3 := r mod 10 in
    let dg (d : nat) := String (ascii_of_nat (48 + d)) EmptyString in
    nat_to_string q ++ "." ++ dg d1 ++
      (if Nat.eqb d2 0 && Nat.eqb d3 0 then ""
       else dg d2 ++ (if Nat.eqb d3 0 then "" else dg d3)).

(** [checkTimeout] at elapsed time [elapsed] ([Date.now() - startTime]). *)
Definition checkTimeout (cfg : config) (elapsed : Z) : option js_error :=
  if negb (enableTotalTimeout cfg) || (maxTotalTime cfg <=? 0)%Z then None
  else if (maxTotalTime cfg <? elapsed)%Z then
    Some (Error ("Audit process timed out after " ++ show_thousandths (maxTotalTime cfg)
                 ++ " seconds"))
  else None.

(** The outcome of one [ollama.chat] call: the message content, or the
    error it rejects with (a per-call timeout among them). *)
Inductive chat_outcome := ChatOk (content : string) | ChatErr (e : js_error).

(** What one target's task does, in order. *)
Inductive tevent := TCheck | TChat (attempt : nat) | TSleep (ms : Z).

(** Reading [response.message.content] after the loop left without a
    response. *)
Definition undefined_response : js_error :=
  {| err_name := "TypeError";
     message := "Cannot read properties of undefined (reading 'message')" |}.

(** The retry loop of lines 364-400: [inr content] on a response, [inl e]
    when an error escapes it.  [fuel] only bounds the recursion: it is
    [maxRetries + 1] at the start and runs out only where the loop guard
    [retryCount <= maxRetries] fails as well. *)
Fixpoint retry_loop (cfg : config) (clock : nat -> Z) (chat : nat -> chat_outcome)
    (fuel retryCount : nat) : (js_error + string) * list tevent :=
  match fuel with
  | 0 => (inl undefined_response, [])
  | S f =>
      if Nat.leb retryCount (maxRetries cfg) then
        match checkTimeout cfg (clock retryCount) with
        | Some e => (inl e, [TCheck])
        | None =>
            match chat retryCount with
            | ChatOk c => (inr c, [TCheck; TChat retryCount])
            | ChatErr e =>
                let rc := S retryCount in
                if Nat.ltb (maxRetries cfg) rc then
                  (inl (Error ("Ollama request failed after " ++ nat_to_string (maxRetries cfg)
                               ++ " retries: " ++ error_toString e)),
                   [TCheck; TChat retryCount])
                else
                  let '(r, t) := retry_loop cfg clock chat f rc in
                  (r, TCheck :: TChat retryCount :: TSleep (1000 * Z.of_nat rc)%Z :: t)
            end
        end
      else (inl undefined_response, [])
  end.

(** Lines 402-440: the record built from a response.  Nothing in the inner
    [try] throws on a string content, so its [catch] is not reached. *)
Definition result_of_content (jsonrepair : string -> option string)
    (w : WebsiteData) (ts : string) (content : string) : AuditResult :=
  let parsed := parseRobustJSON jsonrepair content in
  if truthy parsed then
    {| website := url w;
       has_age_verification := js_or (get_prop parsed "has_age_verification") (JBool false);
       verification_type := js_or (get_prop parsed "verification_type") (str "unknown");
       confidence_score := js_or (get_prop parsed "confidence_score") (JNum 0);
       details := js_or (get_prop parsed "details") (str "No details provided");
       timestamp := ts; result_name := name w; result_category := category w |}
  else
    let l := toLowerCase content in
    let hv := includes l "age verification" || includes l "birth date" ||
              includes l "age gate" || includes l "verification" in
    {| website := url w;
       has_age_verification := JBool hv;
       verification_type := str (if hv then "detected" else "none");
       confidence_score := JNum (if hv then 7 # 10 else 1 # 2);
       details := str content;
       timestamp := ts; result_name := name w; result_category := category w |}.

Definition is_timeout_message (msg : string) : bool :=
  includes msg "timeout" || includes msg "timed out" ||
  includes msg "ETIMEDOUT" || includes msg "ENOTFOUND".

(** Lines 457-480: the record of a target whose task threw. *)
Definition error_result (w : WebsiteData) (ts : string) (e : js_error) : AuditResult :=
  let isTimeout := is_timeout_message (message e) in
  {| website := url w;
     has_age_verification := JBool false;
     verification_type := str (if isTimeout then "timeout" else "error");
     confidence_score := JNum 0;
     details := str (if isTimeout
                     then "Request timed out - Ollama service may be overloaded or unavailable"
                     else "Error: " ++ message e);
     timestamp := ts; result_name := name w; result_category := category w |}.

(** The task of one website (lines 355-481). *)
Definition process_target (cfg : config) (jsonrepair : string -> option string)
    (clock : nat -> Z) (chat : nat -> chat_outcome) (ts : string) (w : WebsiteData)
    : AuditResult * list tevent :=
  let '(r, tr) := retry_loop cfg clock chat (S (maxRetries cfg)) 0 in
  match r with
  | inr content => (result_of_content jsonrepair w ts content, tr)
  | inl e => (error_result w ts e, tr)
  end.

(** [Promise.all]: the value of promise [j] lands in slot [j] when it
    settles, in the order [order] in which the promises settle; the
    combined promise resolves once every slot is filled. *)
Fixpoint set_slot {A : Type} (slots : list (option A)) (j : nat) (x : A) : list (option A) :=
  match slots, j with
  | [], _ => []
  | _ :: sl, 0 => Some x :: sl
  | y :: sl, S j' => y :: set_slot sl j' x
  end.

Fixpoint all_filled {A : Type} (slots : list (option A)) : option (list A) :=
  match slots with
  | [] => Some []
  | Some x :: sl => option_map (cons x) (all_filled sl)
  | None :: _ => None
  end.

Definition promise_all {A : Type} (order : list nat) (vals : list A) : option (list A) :=
  match vals with
  | [] => Some []
  | v0 :: _ =>
      all_filled (fold_left (fun slots j => set_slot slots j (nth j vals v0)) order
                            (repeat None (List.length vals)))
  end.

(** The environment of one run: the health check, the clock at each call
    of [checkTimeout], the outcome of each chat call, the order in which a
    wave's tasks settle, and [new Date().toISOString()] for each target.
    Targets are numbered by their index in [websites]. *)
Record oracle := {
  health : option js_error;
  clock_before : nat -> Z;
  clock_after : nat -> Z;
  target_clock : nat -> nat -> Z;
  chat : nat -> nat -> chat_outcome;
  completion : nat -> list nat;
  now : nat -> string
}.

Inductive event := EHealth | ECheck | ETarget (i : nat) (e : tevent).

Inductive loop_out :=
| LoopOk (results : list AuditResult)
| LoopThrow (e : js_error)
| LoopPending.

Fixpoint mapi_from {A B : Type} (f : nat -> A -> B) (j : nat) (l : list A) : list B :=
  match l with
  | [] => []
  | x :: l' => f j x :: mapi_from f (S j) l'
  end.

Section Dispatch.
Variable cfg : config.
Variable jsonrepair : string -> option string.
Variable o : oracle.
Variable websites : list WebsiteData.

(** The tasks of the wave starting at index [i]. *)
Definition wave_tasks (i : nat) : list (AuditResult * list tevent) :=
  mapi_from (fun j w => process_target cfg jsonrepair (target_clock o (i + j))
                          (chat o (i + j)) (now o (i + j)) w)
            0 (firstn (batchSize cfg) (skipn i websites)).

Definition wave_trace (i : nat) (tasks : list (AuditResult * list tevent)) : list event :=
  concat (mapi_from (fun j p => map (ETarget (i + j)) (snd p)) 0 tasks).

(** The loop of lines 349-490, wave [k] starting at [i = k * batchSize].
    [fuel] bounds the waves; it is [websites.length + 1] at the start and
    runs out only when [batchSize] is 0, where the source loops forever. *)
Fixpoint waves (fuel k : nat) (results : list AuditResult) : loop_out * list event :=
  match fuel with
  | 0 => (LoopPending, [])
  | S f =>
      let i := k * batchSize cfg in
      if Nat.ltb i (List.length websites) then
        match checkTimeout cfg (clock_before o k) with
        | Some e => (LoopThrow e, [ECheck])
        | None =>
            let tasks := wave_tasks i in
            let tr := ECheck :: wave_trace i tasks in
            match promise_all (completion o k) (map fst tasks) with
            | None => (LoopPending, tr)
            | Some batchResults =>
                let results' := (results ++ batchResults)%list in
                match checkTimeout cfg (clock_after o k) with
                | Some e => (LoopThrow e, (tr ++ [ECheck])%list)
                | None =>
                    let '(r, t) := waves f (S k) results' in
                    (r, (tr ++ ECheck :: t)%list)
                end
            end
        end
      else (LoopOk results, [])
  end.

End Dispatch.

(** The request: a body that [request.json()] rejects, or the [websites]
    field of the body ([None] when absent). *)
Inductive request := BadJson | Body (websites : option (list WebsiteData)).

Inductive response_body :=
| RSuccess (results : list AuditResult) (totalWebsites processedWebsites : nat)
| RError (error : string) (details : option string).

(** [Respond] is a returned [NextResponse]; [Reject] an exception escaping
    the handler; [Pending] a handler that never settles. *)
Inductive post_out :=
| Respond (status : Z) (body : response_body)
| Reject (e : js_error)
| Pending.

(** The outer [catch] (lines 499-514).  [websites] and [results] are
    [const] declarations of the [try] block, out of scope in the [catch]
    block: building the response object evaluates [results?.length], which
    throws a [ReferenceError]. *)
Definition post_catch (error : js_error) : post_out :=
  Reject {| err_name := "ReferenceError"; message := "results is not defined" |}.

Definition request_syntax_error : js_error :=
  {| err_name := "SyntaxError"; message := "Unexpected token in JSON" |}.

Definition ollama_unavailable : string :=
  "Ollama service not available or not responding. Please ensure Ollama is running with: ollama serve".

Definition POST (cfg : config) (jsonrepair : string -> option string) (o : oracle)
    (req : request) : post_out * list event :=
  match req with
  | BadJson => (post_catch request_syntax_error, [])
  | Body None | Body (Some []) => (Respond 400 (RError "No websites provided" None), [])
  | Body (Some websites) =>
      match health o with
      | Some e => (Respond 503 (RError ollama_unavailable (Some (message e))), [EHealth])
      | None =>
          let '(r, t) := waves cfg jsonrepair o websites (S (List.length websites)) 0 [] in
          (match r with
           | LoopOk results =>
               Respond 200 (RSuccess results (List.length websites) (List.length results))
           | LoopThrow e => post_catch e
           | LoopPending => Pending
           end, EHealth :: t)
      end
  end.

End Route.

(* ================================================================== *)
(** * Properties *)

(* ------------------------------------------------------------------ *)
(** ** The recovery parser *)

Module ParserFacts.
Import Text Regex Patterns Json Parser Route.
Local Open Scope string_scope.

Definition q : string := String dq EmptyString.

(** A well-formed model response stating the confidence as a percentage. *)
Definition percent_response : string :=
  "{" ++ q ++ "has_age_verification" ++ q ++ ": true, " ++ q ++ "verification_type" ++ q
  ++ ": " ++ q ++ "popup" ++ q ++ ", " ++ q ++ "confidence_score" ++ q ++ ": 95, " ++ q
  ++ "details" ++ q ++ ": " ++ q ++ "Age gate found" ++ q ++ "}".

(** A JSON-like response with bare keys and bare values. *)
Definition bare_response : string :=
  "{has_age_verification: true, verification_type: popup, confidence_score: 0.8, details: none found}".

(** The braceless response of the spec's example. *)
Definition braceless_response : string :=
  "headers: confidence_score: 0.95, has_age_verification: true".

Definition site : WebsiteData :=
  {| url := "https://example.com"; name := None; category := None |}.

Definition ts0 : string := "2025-01-01T00:00:00.000Z".

Definition no_repair : string -> option string := fun _ => None.



(** The keys of the object built by attempt 4. *)
Lemma get_prop_kvp_has (a b c d : jval) :
  get_prop (JObj [(units "has_age_verification", a); (units "verification_type", b);
                  (units "confidence_score", c); (units "details", d)])
           "has_age_verification" = a.
Proof. reflexivity. Qed.

Lemma get_prop_kvp_conf (a b c d : jval) :
  get_prop (JObj [(units "has_age_verification", a); (units "verification_type", b);
                  (units "confidence_score", c); (units "details", d)])
           "confidence_score" = c.
Proof. reflexivity. Qed.

(** Attempt 1 already accepts the percentage response: pre-processing
    leaves it unchanged and [JSON.parse] succeeds. *)
Lemma percent_response_attempt1 :
  preprocess percent_response = percent_response
  /\ JSON_parse percent_response <> None.
Proof. split; vm_compute; [reflexivity | discriminate]. Qed.


(** C4 (code_bug): on a response with bare keys and bare values, attempt 1
    succeeds after pre-processing has quoted the values, so the record
    carries the strings ['true'] and ['0.8'] instead of a boolean and a
    number. *)
Theorem C4_bare_values_stringified (jr : string -> option string) :
  has_age_verification (result_of_content jr site ts0 bare_response) = str "true"
  /\ confidence_score (result_of_content jr site ts0 bare_response) = str "0.8"
  /\ verification_type (result_of_content jr site ts0 bare_response) = str "popup".
Proof. vm_compute. repeat split. Qed.

(** C5 (corrected): the braceless text has no [{...}] span, so
    [parseRobustJSON] returns [null] before attempt 4; the route's own
    fallback then finds the word [verification] and records detection
    with the fixed confidence 0.7 and the raw text as details. *)
Theorem C5_braceless_route_fallback (jr : string -> option string) :
  parseRobustJSON jr braceless_response = JNull
  /\ has_age_verification (result_of_content jr site ts0 braceless_response) = JBool true
  /\ verification_type (result_of_content jr site ts0 braceless_response) = str "detected"
  /\ confidence_score (result_of_content jr site ts0 braceless_response) = JNum (7 # 10)
  /\ details (result_of_content jr site ts0 braceless_response) = str braceless_response.
Proof. vm_compute. repeat split. Qed.

(** C5: the confidence of that record is not 0.95. *)
Lemma C5_confidence_not_095 :
  exists x, confidence_score (result_of_content no_repair site ts0 braceless_response) = JNum x
            /\ ~ (x == 95 # 100)%Q.
Proof.
  exists (7 # 10). split.
  - vm_compute. reflexivity.
  - intro H. vm_compute in H. discriminate H.
Qed.

(** The confidence chosen by attempt 4's defaults is never 0. *)
Lemma with_defaults_cs_nonzero (content : string) (k : kv) :
  let '(_, _, cs, _) := with_defaults content k in ~ (cs == 0)%Q.
Proof.
  unfold with_defaults.
  destruct (kv_hv k) as [b|]; [|destruct (infer_hv content)];
  destruct (kv_cs k) as [x|]; try (destruct b);
  try (destruct (Qeq_bool x 0) eqn:E; simpl;
       [ | intro H; apply Qeq_bool_iff in H; rewrite H in E; discriminate E ]);
  intro H; vm_compute in H; discriminate H.
Qed.

(** C10: when attempt 4's confidence patterns capture a value that
    normalises to 0, the default-filling step ([!keyValuePairs.confidence_score])
    replaces it with 0.7 if [has_age_verification] is true and 0.5
    otherwise; the confidence attempt 4 returns is never 0. *)
Theorem C10_layer4_zero_confidence_replaced (content : string) (x : Q)
    (Hcap : kv_cs (extract content) = Some x) (Hzero : (x == 0)%Q) :
  (exists hv,
     get_prop (key_value_pairs content) "has_age_verification" = JBool hv
     /\ get_prop (key_value_pairs content) "confidence_score" = JNum (if hv then 7 # 10 else 1 # 2))
  /\ (forall content', exists y,
        get_prop (key_value_pairs content') "confidence_score" = JNum y /\ ~ (y == 0)%Q).
Proof.
  split.
  - unfold key_value_pairs.
    unfold with_defaults. rewrite Hcap.
    assert (Qeq_bool x 0 = true) as E by (apply Qeq_bool_iff; exact Hzero).
    rewrite E. simpl negb. cbv iota.
    eexists. rewrite get_prop_kvp_has, get_prop_kvp_conf. split; reflexivity.
  - intro c. unfold key_value_pairs.
    pose proof (with_defaults_cs_nonzero c (extract c)) as N.
    destruct (with_defaults c (extract c)) as [[[hv vt] cs] d].
    exists cs. rewrite get_prop_kvp_conf. split; [reflexivity | exact N].
Qed.

(** C10: witness on [{confidence_score: 0}]. *)
Lemma C10_witness :
  kv_cs (extract "{confidence_score: 0}") = Some 0%Q /\ (0 == 0)%Q /\
  get_prop (key_value_pairs "{confidence_score: 0}") "confidence_score" = JNum (1 # 2).
Proof.
  split; [vm_compute; reflexivity|]. split; [reflexivity|].
  destruct (C10_layer4_zero_confidence_replaced "{confidence_score: 0}" 0
              ltac:(vm_compute; reflexivity) ltac:(reflexivity)) as [[hv [H1 H2]] _].
  assert (hv = false) as ->.
  { vm_compute in H1. injection H1. intros <-. reflexivity. }
  exact H2.
Defined.

End ParserFacts.

(* ------------------------------------------------------------------ *)
(** ** One target's retry loop *)

Module RetryFacts.
Import Text Json Parser Route.
Local Open Scope string_scope.

(** A failed attempt [a]: the budget check, the call, then the wait of
    [1000 * (a + 1)] ms before attempt [a + 1]. *)
Definition attempt_block (a : nat) : list tevent :=
  [TCheck; TChat a; TSleep (1000 * Z.of_nat (S a))%Z].

Definition is_chat (ev : tevent) : bool :=
  match ev with TChat _ => true | _ => false end.

Lemma retry_loop_shape (cfg : config) (clock : nat -> Z) (chat : nat -> chat_outcome) :
  forall n rc, rc <= maxRetries cfg -> n = S (maxRetries cfg) - rc ->
  exists k tail,
    rc <= k <= maxRetries cfg /\
    snd (retry_loop cfg clock chat n rc) =
      (concat (map attempt_block (seq rc (k - rc))) ++ tail)%list /\
    (tail = [TCheck] \/ tail = [TCheck; TChat k]).
Proof.
  induction n as [|f IH]; intros rc Hrc Hn; [lia|].
  simpl. rewrite (proj2 (Nat.leb_le _ _) Hrc).
  destruct (checkTimeout cfg (clock rc)) as [e|].
  { exists rc, [TCheck]. rewrite Nat.sub_diag. simpl. auto. }
  destruct (chat rc) as [c|e].
  { exists rc, [TCheck; TChat rc]. rewrite Nat.sub_diag. simpl. auto. }
  destruct (Nat.ltb (maxRetries cfg) (S rc)) eqn:L.
  { exists rc, [TCheck; TChat rc]. rewrite Nat.sub_diag. simpl. auto. }
  apply Nat.ltb_ge in L.
  destruct (IH (S rc) L ltac:(lia)) as (k & tail & Hk & Htr & Ht).
  destruct (retry_loop cfg clock chat f (S rc)) as [r t] eqn:E. simpl in Htr |- *.
  exists k, tail. split; [lia|]. split; [|exact Ht].
  replace (k - rc) with (S (k - S rc)) by lia. simpl. rewrite Htr. reflexivity.
Qed.

Lemma count_chats_blocks (rc m : nat) :
  List.length (filter is_chat (concat (map attempt_block (seq rc m)))) = m.
Proof.
  revert rc. induction m as [|m IH]; intro rc; [reflexivity|].
  simpl. rewrite IH. reflexivity.
Qed.

(** When every check passes and every call fails, the loop ends with the
    error built from the call of the last attempt. *)
Lemma retry_loop_all_fail (cfg : config) (clock : nat -> Z) (chat : nat -> chat_outcome)
    (errs : nat -> js_error)
    (Hclock : forall a, a <= maxRetries cfg -> checkTimeout cfg (clock a) = None)
    (Hchat : forall a, a <= maxRetries cfg -> chat a = ChatErr (errs a)) :
  forall n rc, rc <= maxRetries cfg -> n = S (maxRetries cfg) - rc ->
  fst (retry_loop cfg clock chat n rc) =
    inl (Error ("Ollama request failed after " ++ nat_to_string (maxRetries cfg)
                ++ " retries: " ++ error_toString (errs (maxRetries cfg)))).
Proof.
  induction n as [|f IH]; intros rc Hrc Hn; [lia|].
  simpl. rewrite (proj2 (Nat.leb_le _ _) Hrc), (Hclock rc Hrc), (Hchat rc Hrc).
  destruct (Nat.ltb (maxRetries cfg) (S rc)) eqn:L.
  - apply Nat.ltb_lt in L. replace rc with (maxRetries cfg) by lia. reflexivity.
  - apply Nat.ltb_ge in L.
    specialize (IH (S rc) L ltac:(lia)).
    destruct (retry_loop cfg clock chat f (S rc)) as [r t]. exact IH.
Qed.

(** C9: per target the call is attempted at most [maxRetries + 1] times;
    the loop's trace is a run of failed attempts, each followed by the wait
    [1000 * n] before attempt [n] (the source's backoff base is the
    constant 1000 ms), and ends with a check that threw, a successful call
    or the last failed call; an error leaving the loop becomes the
    target's own record. *)
Theorem C9_retry_bounded_linear_backoff (cfg : config) (jr : string -> option string)
    (clock : nat -> Z) (chat : nat -> chat_outcome) (ts : string) (w : WebsiteData) :
  (exists k tail,
     k <= maxRetries cfg /\
     snd (retry_loop cfg clock chat (S (maxRetries cfg)) 0) =
       (concat (map attempt_block (seq 0 k)) ++ tail)%list /\
     (tail = [TCheck] \/ tail = [TCheck; TChat k]))
  /\ List.length (filter is_chat (snd (retry_loop cfg clock chat (S (maxRetries cfg)) 0)))
       <= S (maxRetries cfg)
  /\ fst (process_target cfg jr clock chat ts w) =
       match fst (retry_loop cfg clock chat (S (maxRetries cfg)) 0) with
       | inr content => result_of_content jr w ts content
       | inl e => error_result w ts e
       end.
Proof.
  destruct (retry_loop_shape cfg clock chat (S (maxRetries cfg)) 0 ltac:(lia) ltac:(lia))
    as (k & tail & Hk & Htr & Ht).
  rewrite Nat.sub_0_r in Htr.
  split; [exists k, tail; split; [lia | auto]|].
  split.
  - rewrite Htr, filter_app, length_app, count_chats_blocks.
    destruct Ht as [-> | ->]; simpl; lia.
  - unfold process_target.
    destruct (retry_loop cfg clock chat (S (maxRetries cfg)) 0) as [[e|c] t]; reflexivity.
Qed.

(** The message of the error raised once the retries are exhausted. *)
Definition exhausted_message (cfg : config) (last : js_error) : string :=
  "Ollama request failed after " ++ nat_to_string (maxRetries cfg) ++ " retries: "
  ++ error_toString last.

(** C8 (as amended): when every attempt's call fails, the record is
    ['timeout'] exactly when the message of the final error, which embeds
    the last call's error, contains [timeout], [timed out], [ETIMEDOUT]
    or [ENOTFOUND], and ['error'] otherwise; an ['error'] record carries
    ['Error: '] and that message as details, a ['timeout'] record a fixed
    text; both have detection false and confidence 0. *)
Theorem C8_exhausted_classification (cfg : config) (jr : string -> option string)
    (clock : nat -> Z) (chat : nat -> chat_outcome) (errs : nat -> js_error)
    (ts : string) (w : WebsiteData)
    (Hclock : forall a, a <= maxRetries cfg -> checkTimeout cfg (clock a) = None)
    (Hchat : forall a, a <= maxRetries cfg -> chat a = ChatErr (errs a)) :
  let msg := exhausted_message cfg (errs (maxRetries cfg)) in
  let r := fst (process_target cfg jr clock chat ts w) in
  verification_type r = str (if is_timeout_message msg then "timeout" else "error")
  /\ details r = str (if is_timeout_message msg
                      then "Request timed out - Ollama service may be overloaded or unavailable"
                      else "Error: " ++ msg)
  /\ has_age_verification r = JBool false
  /\ confidence_score r = JNum 0.
Proof.
  intros msg r. subst r.
  pose proof (retry_loop_all_fail cfg clock chat errs Hclock Hchat
                (S (maxRetries cfg)) 0 ltac:(lia) ltac:(lia)) as H.
  unfold process_target.
  destruct (retry_loop cfg clock chat (S (maxRetries cfg)) 0) as [r t].
  simpl in H. subst r. simpl. repeat split.
Qed.

Definition econnrefused : js_error := Error "connect ECONNREFUSED 127.0.0.1:11434".

Definition refused_chat : nat -> chat_outcome := fun _ => ChatErr econnrefused.

(** C8: witness with every call refused. *)
Lemma C8_witness :
  checkTimeout OLLAMA_CONFIG 0%Z = None /\
  verification_type
    (fst (process_target OLLAMA_CONFIG (fun _ => None) (fun _ => 0%Z) refused_chat
                         "2025-01-01T00:00:00.000Z"
                         {| url := "https://example.com"; name := None; category := None |}))
  = str "error".
Proof.
  split; [reflexivity|].
  destruct (C8_exhausted_classification OLLAMA_CONFIG (fun _ => None) (fun _ => 0%Z)
              refused_chat (fun _ => econnrefused) "2025-01-01T00:00:00.000Z"
              {| url := "https://example.com"; name := None; category := None |}
              ltac:(intros; reflexivity) ltac:(intros; reflexivity)) as [H _].
  rewrite H. vm_compute. reflexivity.
Defined.

(** C8: a connection refused on every attempt is classified ['error'],
    not ['timeout']. *)
Lemma C8_refused_is_error :
  verification_type
    (fst (process_target OLLAMA_CONFIG (fun _ => None) (fun _ => 0%Z) refused_chat
                         "2025-01-01T00:00:00.000Z"
                         {| url := "https://example.com"; name := None; category := None |}))
  <> str "timeout".
Proof. vm_compute. discriminate. Qed.

End RetryFacts.

(* ------------------------------------------------------------------ *)
(** ** [Promise.all] and the index bookkeeping of the waves *)

Module WaveFacts.
Import Json Parser Route.

Section PromiseAll.
Context {A : Type}.

Lemma length_set_slot (sl : list (option A)) j x : List.length (set_slot sl j x) = List.length sl.
Proof. revert j; induction sl as [|y sl IH]; intros [|j]; simpl; auto. Qed.

Lemma nth_set_slot_same (sl : list (option A)) j x :
  j < List.length sl -> nth_error (set_slot sl j x) j = Some (Some x).
Proof.
  revert j; induction sl as [|y sl IH]; intros [|j] H; simpl in *; try lia; auto.
  apply IH. lia.
Qed.

Lemma nth_set_slot_other (sl : list (option A)) j m x :
  m <> j -> nth_error (set_slot sl j x) m = nth_error sl m.
Proof.
  revert j m; induction sl as [|y sl IH]; intros [|j] [|m] H; simpl; try lia; auto.
Qed.

Lemma all_filled_map (sl : list (option A)) l : all_filled sl = Some l -> sl = map Some l.
Proof.
  revert l; induction sl as [|[y|] sl IH]; intros l H; simpl in H.
  - injection H as <-. reflexivity.
  - destruct (all_filled sl) as [l'|] eqn:E; simpl in H; [|discriminate].
    injection H as <-. simpl. rewrite (IH l' eq_refl). reflexivity.
  - discriminate.
Qed.

Lemma all_filled_full (sl : list (option A)) :
  (forall m, m < List.length sl -> exists x, nth_error sl m = Some (Some x)) ->
  exists l, all_filled sl = Some l.
Proof.
  induction sl as [|y sl IH]; intro H; [exists []; reflexivity|].
  destruct (H 0 ltac:(simpl; lia)) as [x Hx]. simpl in Hx. injection Hx as ->.
  destruct IH as [l Hl].
  { intros m Hm. apply (H (S m)). simpl. lia. }
  exists (x :: l). simpl. rewrite Hl. reflexivity.
Qed.

(** Two lists agree when each element of the first is the element of the
    second at the same index. *)
Lemma list_eq_by_index (l vals : list A) (d : A) :
  List.length l = List.length vals ->
  (forall m x, nth_error l m = Some x -> x = nth m vals d) -> l = vals.
Proof.
  revert vals; induction l as [|x l IH]; intros [|v vals] Hlen H; simpl in *; try lia; auto.
  f_equal.
  - apply (H 0). reflexivity.
  - apply IH; [lia|]. intros m y Hy. apply (H (S m)). exact Hy.
Qed.

Definition fill (vals : list A) (d : A) (order : list nat) (sl : list (option A)) :=
  fold_left (fun slots j => set_slot slots j (nth j vals d)) order sl.

Lemma fill_length vals d order sl : List.length (fill vals d order sl) = List.length sl.
Proof.
  unfold fill. revert sl; induction order as [|j order IH]; intro sl; simpl; auto.
  rewrite IH. apply length_set_slot.
Qed.

(** Every filled slot holds the value of its own promise. *)
Lemma fill_sound vals d order sl :
  (forall m x, nth_error sl m = Some (Some x) -> x = nth m vals d) ->
  forall m x, nth_error (fill vals d order sl) m = Some (Some x) -> x = nth m vals d.
Proof.
  unfold fill. revert sl; induction order as [|j order IH]; intros sl Hsl; simpl; auto.
  apply IH. intros m x Hm.
  destruct (Nat.eq_dec m j) as [->|Hne].
  - destruct (le_lt_dec (List.length sl) j) as [Hle|Hlt].
    + exfalso. assert (nth_error (set_slot sl j (nth j vals d)) j = None) as E.
      { apply nth_error_None. rewrite length_set_slot. exact Hle. }
      congruence.
    + rewrite nth_set_slot_same in Hm by exact Hlt. congruence.
  - rewrite nth_set_slot_other in Hm by exact Hne. apply Hsl. exact Hm.
Qed.

(** A slot stays filled, and the slot of every promise that settles is
    filled. *)
Lemma fill_complete vals d order sl m :
  m < List.length sl ->
  (In m order \/ exists x, nth_error sl m = Some (Some x)) ->
  exists x, nth_error (fill vals d order sl) m = Some (Some x).
Proof.
  unfold fill. revert sl; induction order as [|j order IH]; intros sl Hm H; simpl in *.
  - destruct H as [[]|H]; exact H.
  - apply IH; [rewrite length_set_slot; exact Hm|].
    destruct (Nat.eq_dec m j) as [->|Hne].
    + right. exists (nth j vals d). apply nth_set_slot_same. exact Hm.
    + destruct H as [[H|H]|[x Hx]]; [congruence|left; exact H|].
      right. exists x. rewrite nth_set_slot_other by exact Hne. exact Hx.
Qed.

(** [Promise.all] yields the values in the order of the promises, whatever
    the order in which they settle. *)
Lemma promise_all_sound (order : list nat) (vals l : list A) :
  promise_all order vals = Some l -> l = vals.
Proof.
  unfold promise_all. destruct vals as [|v0 vals'] eqn:Ev; [intro H; injection H as <-; reflexivity|].
  rewrite <- Ev. intro H.
  pose proof (all_filled_map _ _ H) as Hmap.
  apply (list_eq_by_index l vals v0).
  - apply (f_equal (@List.length _)) in Hmap. rewrite length_map in Hmap.
    change (fold_left _ _ _) with (fill vals v0 order (repeat None (List.length vals))) in Hmap.
    rewrite fill_length, repeat_length in Hmap. lia.
  - intros m x Hx.
    apply (fill_sound vals v0 order (repeat None (List.length vals))).
    + intros m' x' Hm'. apply nth_error_In in Hm'. apply repeat_spec in Hm'. discriminate.
    + change (fold_left _ _ _) with (fill vals v0 order (repeat None (List.length vals))) in Hmap.
      rewrite Hmap. rewrite nth_error_map, Hx. reflexivity.
Qed.

Lemma promise_all_complete (order : list nat) (vals : list A) :
  (forall j, j < List.length vals -> In j order) -> promise_all order vals = Some vals.
Proof.
  intro H.
  destruct (promise_all order vals) as [l|] eqn:E.
  - rewrite (promise_all_sound _ _ _ E). reflexivity.
  - exfalso. unfold promise_all in E. destruct vals as [|v0 vals']; [discriminate|].
    set (vals := v0 :: vals') in *.
    destruct (all_filled_full (fill vals v0 order (repeat None (List.length vals)))) as [l Hl].
    + intros m Hm. rewrite fill_length, repeat_length in Hm.
      apply fill_complete; [rewrite repeat_length; exact Hm|]. left. apply H. exact Hm.
    + unfold fill in Hl. congruence.
Qed.

End PromiseAll.

Section Mapi.
Context {A B : Type}.

Lemma length_mapi_from (f : nat -> A -> B) j l : List.length (mapi_from f j l) = List.length l.
Proof. revert j; induction l as [|x l IH]; intro j; simpl; auto. Qed.

Lemma mapi_from_app (f : nat -> A -> B) j l1 l2 :
  mapi_from f j (l1 ++ l2) = mapi_from f j l1 ++ mapi_from f (j + List.length l1) l2.
Proof.
  revert j; induction l1 as [|x l1 IH]; intro j; simpl.
  - rewrite Nat.add_0_r. reflexivity.
  - rewrite IH. do 3 f_equal. lia.
Qed.

Lemma mapi_from_shift (f : nat -> A -> B) i m l :
  mapi_from (fun j w => f (i + j) w) m l = mapi_from f (i + m) l.
Proof.
  revert m; induction l as [|x l IH]; intro m; simpl; auto.
  rewrite IH. do 2 f_equal. lia.
Qed.

Lemma map_mapi_from {C : Type} (g : B -> C) (f : nat -> A -> B) j l :
  map g (mapi_from f j l) = mapi_from (fun j w => g (f j w)) j l.
Proof. revert j; induction l as [|x l IH]; intro j; simpl; auto. rewrite IH. reflexivity. Qed.

Lemma nth_error_mapi_from (f : nat -> A -> B) j l m :
  nth_error (mapi_from f j l) m = option_map (f (j + m)) (nth_error l m).
Proof.
  revert j m; induction l as [|x l IH]; intros j [|m]; simpl; auto.
  - rewrite Nat.add_0_r. reflexivity.
  - rewrite IH. do 2 f_equal. lia.
Qed.

End Mapi.

Section Waves.
Variable cfg : config.
Variable jr : string -> option string.
Variable o : oracle.
Variable websites : list WebsiteData.

(** The record of target [j]. *)
Definition record_of (j : nat) (w : WebsiteData) : AuditResult :=
  fst (process_target cfg jr (target_clock o j) (chat o j) (now o j) w).

(** The records of the targets from index [i] on, in input order. *)
Definition records_from (i : nat) : list AuditResult :=
  mapi_from record_of i (skipn i websites).

Lemma records_from_split (i : nat) :
  records_from i =
    map fst (wave_tasks cfg jr o websites i) ++ records_from (i + batchSize cfg).
Proof.
  unfold records_from, wave_tasks.
  rewrite map_mapi_from.
  change (fun j w => fst (process_target cfg jr (target_clock o (i + j)) (chat o (i + j))
                            (now o (i + j)) w))
    with (fun j w => record_of (i + j) w).
  rewrite mapi_from_shift, Nat.add_0_r.
  rewrite <- (firstn_skipn (batchSize cfg) (skipn i websites)) at 1.
  rewrite mapi_from_app. f_equal.
  rewrite skipn_skipn, (Nat.add_comm (batchSize cfg) i).
  rewrite length_firstn.
  destruct (le_lt_dec (batchSize cfg) (List.length (skipn i websites))) as [Hle|Hlt].
  - rewrite Nat.min_l by exact Hle. reflexivity.
  - assert (skipn (i + batchSize cfg) websites = []) as ->.
    { apply skipn_all2. rewrite length_skipn in Hlt. lia. }
    reflexivity.
Qed.

Lemma records_from_end (i : nat) : List.length websites <= i -> records_from i = [].
Proof. intro H. unfold records_from. rewrite skipn_all2 by exact H. reflexivity. Qed.

Lemma length_wave_tasks (i : nat) :
  List.length (wave_tasks cfg jr o websites i) <= batchSize cfg.
Proof. unfold wave_tasks. rewrite length_mapi_from. apply firstn_le_length. Qed.

(** A successful loop returns the records of all targets in input order. *)
Lemma waves_ok_records :
  forall fuel k results rs,
  fst (waves cfg jr o websites fuel k results) = LoopOk rs ->
  rs = results ++ records_from (k * batchSize cfg).
Proof.
  induction fuel as [|f IH]; intros k results rs H; simpl in H; [discriminate|].
  destruct (Nat.ltb (k * batchSize cfg) (List.length websites)) eqn:Hlt.
  - destruct (checkTimeout cfg (clock_before o k)); [discriminate|].
    destruct (promise_all (completion o k) (map fst (wave_tasks cfg jr o websites (k * batchSize cfg))))
      as [br|] eqn:Hp; [|discriminate].
    apply promise_all_sound in Hp. subst br.
    destruct (checkTimeout cfg (clock_after o k)); [discriminate|].
    destruct (waves cfg jr o websites f (S k) _) as [r t] eqn:Ew. simpl in H. subst r.
    pose proof (IH (S k) _ rs (f_equal fst Ew)) as IH'. simpl in IH'.
    rewrite IH', <- app_assoc, (records_from_split (k * batchSize cfg)).
    do 3 f_equal. lia.
  - injection H as <-. apply Nat.ltb_ge in Hlt.
    rewrite records_from_end by exact Hlt. symmetry. apply app_nil_r.
Qed.

(** With a positive batch size, every wave's tasks all settling and every
    boundary check passing, the loop returns the records of all targets. *)
Lemma waves_total
    (Hbs : 0 < batchSize cfg)
    (Hcomp : forall k j, j < batchSize cfg -> In j (completion o k))
    (Hchecks : forall k, k * batchSize cfg < List.length websites ->
                         checkTimeout cfg (clock_before o k) = None /\
                         checkTimeout cfg (clock_after o k) = None) :
  forall fuel k results,
  List.length websites - k * batchSize cfg < fuel ->
  fst (waves cfg jr o websites fuel k results) =
    LoopOk (results ++ records_from (k * batchSize cfg)).
Proof.
  induction fuel as [|f IH]; intros k results Hf; [lia|].
  simpl.
  destruct (Nat.ltb (k * batchSize cfg) (List.length websites)) eqn:Hlt.
  - apply Nat.ltb_lt in Hlt. destruct (Hchecks k Hlt) as [Hb Ha]. rewrite Hb.
    rewrite promise_all_complete.
    2:{ intros j Hj. apply Hcomp. rewrite length_map in Hj.
        pose proof (length_wave_tasks (k * batchSize cfg)). lia. }
    rewrite Ha.
    destruct (waves cfg jr o websites f (S k) _) as [r t] eqn:Ew. simpl.
    specialize (IH (S k) (results ++ map fst (wave_tasks cfg jr o websites (k * batchSize cfg)))).
    rewrite Ew in IH. simpl in IH. rewrite IH.
    + rewrite <- app_assoc, (records_from_split (k * batchSize cfg)).
      do 4 f_equal. lia.
    + simpl. lia.
  - apply Nat.ltb_ge in Hlt. rewrite records_from_end by exact Hlt.
    rewrite app_nil_r. reflexivity.
Qed.

Lemma in_wave_trace_from (i m : nat) (tasks : list (AuditResult * list tevent)) t ev :
  In (ETarget t ev) (concat (mapi_from (fun j p => map (ETarget (i + j)) (snd p)) m tasks)) ->
  i + m <= t < i + m + List.length tasks.
Proof.
  revert m; induction tasks as [|p tasks IH]; intros m H; simpl in H; [contradiction|].
  apply in_app_or in H as [H|H].
  - apply in_map_iff in H as [x [Hx _]]. injection Hx as <- _. simpl. lia.
  - apply IH in H. simpl. lia.
Qed.

(** The events of wave [i] belong to its own targets. *)
Lemma in_wave_trace (i : nat) (tasks : list (AuditResult * list tevent)) t ev :
  In (ETarget t ev) (wave_trace i tasks) -> i <= t < i + List.length tasks.
Proof. unfold wave_trace. intro H. apply in_wave_trace_from in H. lia. Qed.

(** If the boundary check of wave [k] fails while those of the earlier
    waves pass, the loop throws, and no target of a later wave is run. *)
Lemma waves_throw (k : nat)
    (Hbs : 0 < batchSize cfg)
    (Hcomp : forall k j, j < batchSize cfg -> In j (completion o k))
    (Hk : k * batchSize cfg < List.length websites)
    (Hprev : forall k', k' < k -> checkTimeout cfg (clock_before o k') = None /\
                                 checkTimeout cfg (clock_after o k') = None)
    (Hfail : checkTimeout cfg (clock_before o k) <> None \/
             checkTimeout cfg (clock_after o k) <> None) :
  forall fuel k0 results, k0 <= k -> k - k0 < fuel ->
  (exists e, fst (waves cfg jr o websites fuel k0 results) = LoopThrow e) /\
  (forall t ev, In (ETarget t ev) (snd (waves cfg jr o websites fuel k0 results)) ->
                t < S k * batchSize cfg).
Proof.
  induction fuel as [|f IH]; intros k0 results Hk0 Hf; [lia|].
  simpl.
  assert (Hlt : Nat.ltb (k0 * batchSize cfg) (List.length websites) = true).
  { apply Nat.ltb_lt. pose proof (Nat.mul_le_mono_r k0 k (batchSize cfg) Hk0). lia. }
  rewrite Hlt.
  pose proof (length_wave_tasks (k0 * batchSize cfg)) as Hlen.
  assert (Hpa : promise_all (completion o k0) (map fst (wave_tasks cfg jr o websites (k0 * batchSize cfg)))
                = Some (map fst (wave_tasks cfg jr o websites (k0 * batchSize cfg)))).
  { apply promise_all_complete. intros j Hj. apply Hcomp. rewrite length_map in Hj. lia. }
  destruct (Nat.eq_dec k0 k) as [->|Hne].
  - destruct (checkTimeout cfg (clock_before o k)) as [e|] eqn:Hb.
    + split; [eexists; reflexivity|]. simpl. intros t ev [H|H]; [discriminate|contradiction].
    + destruct Hfail as [Hfail|Hfail]; [contradiction|].
      rewrite Hpa.
      destruct (checkTimeout cfg (clock_after o k)) as [e|]; [|contradiction].
      split; [eexists; reflexivity|]. simpl. intros t ev [H|H]; [discriminate|].
      apply in_app_or in H as [H|[H|[]]]; [|discriminate].
      apply in_wave_trace in H. simpl. lia.
  - destruct (Hprev k0 ltac:(lia)) as [Hb Ha]. rewrite Hb, Hpa, Ha.
    destruct (IH (S k0) (results ++ map fst (wave_tasks cfg jr o websites (k0 * batchSize cfg))))
      as [IH1 IH2]; [lia|lia|].
    destruct (waves cfg jr o websites f (S k0) _) as [r tr] eqn:Ew.
    simpl in IH1, IH2 |- *. split; [exact IH1|].
    intros t ev [H|H]; [discriminate|].
    apply in_app_or in H as [H|[H|H]].
    + apply in_wave_trace in H. pose proof (Nat.mul_le_mono_r k0 k (batchSize cfg)). simpl. nia.
    + discriminate.
    + exact (IH2 t ev H).
Qed.

(** The only exception the wave loop throws is the error of [checkTimeout]. *)
Lemma checkTimeout_message (t : Z) (e : js_error) :
  checkTimeout cfg t = Some e ->
  e = Error ("Audit process timed out after " ++ show_thousandths (maxTotalTime cfg) ++ " seconds")%string.
Proof.
  unfold checkTimeout.
  destruct (negb (enableTotalTimeout cfg) || (maxTotalTime cfg <=? 0)%Z); [discriminate|].
  destruct (maxTotalTime cfg <? t)%Z; [|discriminate].
  intro H. injection H as <-. reflexivity.
Qed.

Lemma waves_throw_message :
  forall fuel k0 results e, fst (waves cfg jr o websites fuel k0 results) = LoopThrow e ->
  e = Error ("Audit process timed out after " ++ show_thousandths (maxTotalTime cfg) ++ " seconds")%string.
Proof.
  induction fuel as [|f IH]; intros k0 results e; simpl; [discriminate|].
  destruct (Nat.ltb (k0 * batchSize cfg) (List.length websites)); [|discriminate].
  destruct (checkTimeout cfg (clock_before o k0)) as [e'|] eqn:Hb.
  { simpl. intro H. injection H as <-. exact (checkTimeout_message _ _ Hb). }
  destruct (promise_all (completion o k0) _) as [l|]; [|discriminate].
  destruct (checkTimeout cfg (clock_after o k0)) as [e'|] eqn:Ha.
  { simpl. intro H. injection H as <-. exact (checkTimeout_message _ _ Ha). }
  specialize (IH (S k0) (results ++ l)%list e).
  destruct (waves cfg jr o websites f (S k0) _) as [r t]. exact IH.
Qed.

(** The index-[i] record produced by any run is [record_of i]. *)
Lemma record_of_website (j : nat) (w : WebsiteData) : website (record_of j w) = url w.
Proof.
  unfold record_of, process_target.
  destruct (retry_loop cfg (target_clock o j) (chat o j) (S (maxRetries cfg)) 0) as [[e|c] tr].
  - reflexivity.
  - simpl. unfold result_of_content. destruct (truthy _); reflexivity.
Qed.

Lemma nth_error_records_from0 (i : nat) :
  nth_error (records_from 0) i = option_map (record_of i) (nth_error websites i).
Proof. unfold records_from. simpl. rewrite nth_error_mapi_from. reflexivity. Qed.

Lemma length_records_from0 : List.length (records_from 0) = List.length websites.
Proof. unfold records_from. simpl. apply length_mapi_from. Qed.

End Waves.

End WaveFacts.

(* ------------------------------------------------------------------ *)
(** ** The request handler *)

Module DispatchFacts.
Import Text Json Parser Route WaveFacts.
Local Open Scope string_scope.

Definition demo_site (j : nat) : WebsiteData :=
  {| url := "https://site" ++ nat_to_string j ++ ".example"; name := None; category := None |}.

Definition demo_sites (n : nat) : list WebsiteData := map demo_site (seq 0 n).

Definition reference_error : js_error :=
  {| err_name := "ReferenceError"; message := "results is not defined" |}.

Definition health_timeout : js_error := Error "Ollama health check timed out".

(** A run whose health check times out. *)
Definition down_oracle : oracle := {|
  health := Some health_timeout;
  clock_before := fun _ => 0%Z;
  clock_after := fun _ => 0%Z;
  target_clock := fun _ _ => 0%Z;
  chat := fun _ _ => ChatOk "{}";
  completion := fun _ => [0; 1; 2];
  now := fun _ => ParserFacts.ts0 |}.

(** One wave of three targets that settle in reverse order: target 0
    fails every attempt, the others answer. *)
Definition reversed_oracle : oracle := {|
  health := None;
  clock_before := fun _ => 0%Z;
  clock_after := fun _ => 5000%Z;
  target_clock := fun _ _ => 0%Z;
  chat := fun i _ => if Nat.eqb i 0 then ChatErr (Error "fetch failed") else ChatOk "{}";
  completion := fun _ => [2; 1; 0];
  now := fun _ => ParserFacts.ts0 |}.

Definition reversed_results : list AuditResult :=
  match fst (POST OLLAMA_CONFIG ParserFacts.no_repair reversed_oracle (Body (Some (demo_sites 3)))) with
  | Respond _ (RSuccess rs _ _) => rs
  | _ => []
  end.

(** Every call times out after 60 seconds: an attempt starts at 0, 61 and
    123 seconds into its wave (after the sleeps of 1 and 2 seconds), and a
    wave of three parallel targets takes 183 seconds. *)
Definition slow_oracle : oracle := {|
  health := None;
  clock_before := fun k => (183000 * Z.of_nat k)%Z;
  clock_after := fun k => (183000 * Z.of_nat (S k))%Z;
  target_clock := fun i a =>
    (183000 * Z.of_nat (i / 3) + 61000 * Z.of_nat a + (if Nat.eqb a 2 then 1000 else 0))%Z;
  chat := fun _ _ => ChatErr (Error "Request timed out");
  completion := fun _ => [0; 1; 2];
  now := fun _ => ParserFacts.ts0 |}.

(** The first wave ends past the budget of 600 seconds. *)
Definition late_oracle : oracle := {|
  health := None;
  clock_before := fun k => (600001 * Z.of_nat k)%Z;
  clock_after := fun _ => 600001%Z;
  target_clock := fun _ _ => 0%Z;
  chat := fun _ _ => ChatOk "{}";
  completion := fun _ => [0; 1; 2];
  now := fun _ => ParserFacts.ts0 |}.

(** The handler on a non-empty list of websites. *)
Lemma POST_nonempty (cfg : config) (jr : string -> option string) (o : oracle)
    (websites : list WebsiteData) (Hne : websites <> []) :
  POST cfg jr o (Body (Some websites)) =
    match health o with
    | Some e => (Respond 503 (RError ollama_unavailable (Some (message e))), [EHealth])
    | None =>
        let '(r, t) := waves cfg jr o websites (S (List.length websites)) 0 [] in
        (match r with
         | LoopOk results =>
             Respond 200 (RSuccess results (List.length websites) (List.length results))
         | LoopThrow e => post_catch e
         | LoopPending => Pending
         end, EHealth :: t)
    end.
Proof. destruct websites; [contradiction|reflexivity]. Qed.

(** C7: when the health check fails, the handler answers 503 with the
    check's error message as details, and the trace holds the health check
    alone: no target is contacted and no record is produced. *)
Theorem C7_health_failure_503 (cfg : config) (jr : string -> option string) (o : oracle)
    (websites : list WebsiteData) (e : js_error)
    (Hne : websites <> []) (Hh : health o = Some e) :
  POST cfg jr o (Body (Some websites)) =
    (Respond 503 (RError ollama_unavailable (Some (message e))), [EHealth])
  /\ forall t ev, ~ In (ETarget t ev) (snd (POST cfg jr o (Body (Some websites)))).
Proof.
  destruct websites as [|w ws]; [contradiction|].
  simpl. rewrite Hh. split; [reflexivity|].
  simpl. intros t ev [H|H]; [discriminate|contradiction].
Qed.

Lemma C7_witness :
  POST OLLAMA_CONFIG ParserFacts.no_repair down_oracle (Body (Some (demo_sites 2))) =
    (Respond 503 (RError ollama_unavailable (Some "Ollama health check timed out")), [EHealth]).
Proof.
  destruct (C7_health_failure_503 OLLAMA_CONFIG ParserFacts.no_repair down_oracle
              (demo_sites 2) health_timeout ltac:(discriminate) ltac:(reflexivity)) as [H _].
  exact H.
Defined.

(** C6: a 200 response lists one record per input, and the record at index
    [i] is the one built for input [i] ([record_of] reads only target [i]'s
    own calls), whatever the order in which a wave's calls settle; its
    [website] is the input's [url]. *)
Theorem C6_results_index_aligned (cfg : config) (jr : string -> option string) (o : oracle)
    (websites : list WebsiteData) (rs : list AuditResult) (total processed : nat)
    (H : fst (POST cfg jr o (Body (Some websites))) = Respond 200 (RSuccess rs total processed)) :
  List.length rs = List.length websites /\
  forall i w, nth_error websites i = Some w ->
    nth_error rs i = Some (record_of cfg jr o i w) /\
    website (record_of cfg jr o i w) = url w.
Proof.
  assert (Hr : exists t, waves cfg jr o websites (S (List.length websites)) 0 [] = (LoopOk rs, t)).
  { destruct websites as [|w0 ws] eqn:Ews; [discriminate|]. rewrite <- Ews in *.
    rewrite POST_nonempty in H by (rewrite Ews; discriminate).
    destruct (health o); [discriminate|].
    destruct (waves cfg jr o websites (S (List.length websites)) 0 []) as [r t].
    destruct r as [rs'| |]; simpl in H; try discriminate.
    injection H as <- _ _. exists t. reflexivity. }
  destruct Hr as [t Ew].
  pose proof (waves_ok_records cfg jr o websites _ 0 [] rs ltac:(rewrite Ew; reflexivity)) as Hr.
  simpl in Hr. subst rs.
  split; [apply length_records_from0|].
  intros i w Hw. rewrite nth_error_records_from0, Hw.
  split; [reflexivity|apply record_of_website].
Qed.

Lemma map_by_index {A B C : Type} (f : A -> C) (g : B -> C) (l1 : list A) (l2 : list B) :
  List.length l1 = List.length l2 ->
  (forall i y, nth_error l2 i = Some y -> exists x, nth_error l1 i = Some x /\ f x = g y) ->
  map f l1 = map g l2.
Proof.
  revert l2; induction l1 as [|x l1 IH]; intros [|y l2] Hlen H; simpl in *; try lia; auto.
  destruct (H 0 y eq_refl) as [x' [Hx Ex]]. injection Hx as <-.
  f_equal; [exact Ex|]. apply IH; [lia|]. intros i z Hz. exact (H (S i) z Hz).
Qed.

Lemma C6_witness :
  fst (POST OLLAMA_CONFIG ParserFacts.no_repair reversed_oracle (Body (Some (demo_sites 3)))) =
    Respond 200 (RSuccess reversed_results 3 3) /\
  map website reversed_results = map url (demo_sites 3).
Proof.
  assert (H : fst (POST OLLAMA_CONFIG ParserFacts.no_repair reversed_oracle
                        (Body (Some (demo_sites 3)))) =
              Respond 200 (RSuccess reversed_results 3 3)) by (vm_compute; reflexivity).
  split; [exact H|].
  destruct (C6_results_index_aligned OLLAMA_CONFIG ParserFacts.no_repair reversed_oracle
              (demo_sites 3) reversed_results 3 3 H) as [Hlen Hnth].
  apply map_by_index; [exact Hlen|].
  intros i w Hw. destruct (Hnth i w Hw) as [Hi Wi].
  exists (record_of OLLAMA_CONFIG ParserFacts.no_repair reversed_oracle i w). split; assumption.
Defined.

(** C2 (as amended): when the health check passes, every wave's calls
    settle and no boundary check finds the budget exceeded, the handler
    answers 200 with exactly one record per input, whatever the outcome of
    each target's calls. *)
Theorem C2_complete_within_budget (cfg : config) (jr : string -> option string) (o : oracle)
    (websites : list WebsiteData)
    (Hne : websites <> []) (Hh : health o = None) (Hbs : 0 < batchSize cfg)
    (Hcomp : forall k j, j < batchSize cfg -> In j (completion o k))
    (Hchecks : forall k, k * batchSize cfg < List.length websites ->
                         checkTimeout cfg (clock_before o k) = None /\
                         checkTimeout cfg (clock_after o k) = None) :
  exists rs,
    fst (POST cfg jr o (Body (Some websites))) =
      Respond 200 (RSuccess rs (List.length websites) (List.length websites))
    /\ List.length rs = List.length websites.
Proof.
  exists (records_from cfg jr o websites 0).
  rewrite length_records_from0. split; [|reflexivity].
  pose proof (waves_total cfg jr o websites Hbs Hcomp Hchecks (S (List.length websites)) 0 []
                ltac:(simpl; lia)) as Hw.
  rewrite POST_nonempty by exact Hne. rewrite Hh.
  destruct (waves cfg jr o websites (S (List.length websites)) 0 []) as [r t].
  simpl in Hw |- *. subst r. rewrite length_records_from0. reflexivity.
Qed.

Lemma C2_witness :
  exists rs,
    fst (POST OLLAMA_CONFIG ParserFacts.no_repair reversed_oracle (Body (Some (demo_sites 3)))) =
      Respond 200 (RSuccess rs 3 3) /\ List.length rs = 3.
Proof.
  apply (C2_complete_within_budget OLLAMA_CONFIG ParserFacts.no_repair reversed_oracle
           (demo_sites 3)).
  - discriminate.
  - reflexivity.
  - simpl. lia.
  - intros k j Hj. simpl in Hj |- *. lia.
  - intros k _. split; reflexivity.
Defined.

(** C2: ten targets whose calls all time out.  Each wave of three takes
    183 seconds; the check after the fourth wave finds 732 seconds elapsed
    and throws, so the handler rejects instead of returning ten records. *)
Lemma C2_timeouts_lose_all_records :
  fst (POST OLLAMA_CONFIG ParserFacts.no_repair slow_oracle (Body (Some (demo_sites 10)))) =
    Reject reference_error.
Proof. vm_compute. reflexivity. Qed.

(** C1 (as amended): if the budget is found exceeded at the boundary of
    wave [k], the earlier boundaries having passed, [checkTimeout] throws
    its [Error('Audit process timed out after ... seconds')], which aborts
    the wave loop and goes to the handler's outer [catch] (lines 499-514):
    no result set is returned, no timeout record is made, and no target
    past wave [k] is run. *)
Theorem C1_budget_exceeded_aborts (cfg : config) (jr : string -> option string) (o : oracle)
    (websites : list WebsiteData) (k : nat)
    (Hh : health o = None) (Hbs : 0 < batchSize cfg)
    (Hcomp : forall k j, j < batchSize cfg -> In j (completion o k))
    (Hk : k * batchSize cfg < List.length websites)
    (Hprev : forall k', k' < k -> checkTimeout cfg (clock_before o k') = None /\
                                 checkTimeout cfg (clock_after o k') = None)
    (Hfail : checkTimeout cfg (clock_before o k) <> None \/
             checkTimeout cfg (clock_after o k) <> None) :
  (exists e,
     fst (waves cfg jr o websites (S (List.length websites)) 0 []) = LoopThrow e /\
     message e = "Audit process timed out after " ++ show_thousandths (maxTotalTime cfg)
                 ++ " seconds" /\
     fst (POST cfg jr o (Body (Some websites))) = post_catch e)
  /\ (forall status rs total processed,
        fst (POST cfg jr o (Body (Some websites))) <>
          Respond status (RSuccess rs total processed))
  /\ forall t ev, In (ETarget t ev) (snd (POST cfg jr o (Body (Some websites)))) ->
                  t < S k * batchSize cfg.
Proof.
  assert (Hfuel : k - 0 < S (List.length websites)).
  { pose proof (Nat.mul_le_mono_l 1 (batchSize cfg) k ltac:(lia)). lia. }
  destruct (waves_throw cfg jr o websites k Hbs Hcomp Hk Hprev Hfail
              (S (List.length websites)) 0 [] (Nat.le_0_l k) Hfuel) as [[e He] Ht].
  pose proof (waves_throw_message cfg jr o websites _ 0 [] e He) as Hm.
  rewrite POST_nonempty by (intros ->; simpl in Hk; lia). rewrite Hh.
  destruct (waves cfg jr o websites (S (List.length websites)) 0 []) as [r t].
  simpl in He, Ht |- *. subst r.
  split; [exists e; split; [reflexivity|split; [rewrite Hm; reflexivity|reflexivity]]|].
  split; [intros status rs total processed; unfold post_catch; discriminate|].
  intros t' ev [H|H]; [discriminate|exact (Ht t' ev H)].
Qed.

Lemma C1_witness :
  exists e,
    fst (waves OLLAMA_CONFIG ParserFacts.no_repair late_oracle (demo_sites 4)
           (S (List.length (demo_sites 4))) 0 []) = LoopThrow e /\
    message e = "Audit process timed out after 600 seconds".
Proof.
  destruct (C1_budget_exceeded_aborts OLLAMA_CONFIG ParserFacts.no_repair late_oracle
              (demo_sites 4) 0 ltac:(reflexivity) ltac:(simpl; lia)
              ltac:(intros k j Hj; simpl in Hj |- *; lia) ltac:(simpl; lia)
              ltac:(intros k' H; lia) ltac:(right; vm_compute; discriminate))
    as [(e & He & Hm & _) _].
  exists e. split; [exact He|]. rewrite Hm. reflexivity.
Defined.

(** C1: four targets in waves of three; the first wave ends past the
    budget.  The handler returns no result set, and target 3 is never
    run, where the claim expects a result set with a timeout record for
    it. *)
Lemma C1_no_timeout_records :
  (forall status rs total processed,
     fst (POST OLLAMA_CONFIG ParserFacts.no_repair late_oracle (Body (Some (demo_sites 4)))) <>
       Respond status (RSuccess rs total processed))
  /\ forall ev, ~ In (ETarget 3 ev)
                  (snd (POST OLLAMA_CONFIG ParserFacts.no_repair late_oracle
                             (Body (Some (demo_sites 4))))).
Proof.
  split; [intros status rs total processed; vm_compute; discriminate|].
  intros ev H. vm_compute in H.
  repeat (destruct H as [H|H]; [discriminate|]). exact H.
Qed.

End DispatchFacts.

(* ------------------------------------------------------------------ *)
(** ** Further properties of the route *)

Module RouteFacts.
Import Text Regex Patterns Json Parser Route WaveFacts.
Local Open Scope string_scope.

(** *** The key/value extraction of attempt 4 *)

Lemma cs_loop_unit (content : string) (ps : list re) (q : Q) :
  cs_loop content ps = Some q -> (0 <= q <= 1)%Q.
Proof.
  induction ps as [|p ps IH]; simpl; [discriminate|].
  destruct (rmatch content p) as [[m0 c]|]; [|exact IH].
  destruct (option_map parseFloat (group content c 1)) as [[score|]|]; try exact IH.
  destruct (Qle_bool 0 (normalize_score score) && Qle_bool (normalize_score score) 1) eqn:E;
    [|exact IH].
  intro H. injection H as <-. apply andb_true_iff in E as [E1 E2].
  apply Qle_bool_iff in E1, E2. split; assumption.
Qed.

Lemma nonempty_true (s : string) : nonempty s = true -> s <> "".
Proof. unfold nonempty. intros H ->. discriminate H. Qed.

Lemma with_defaults_ok (content : string) (k : kv)
    (Hcs : forall q, kv_cs k = Some q -> (0 <= q <= 1)%Q) :
  let '(_, vt, cs, d) := with_defaults content k in
  vt <> "" /\ (0 < cs <= 1)%Q /\ d <> "".
Proof.
  unfold with_defaults.
  set (hv := match kv_hv k with Some b => b | None => infer_hv content end).
  split; [|split].
  - destruct (kv_vt k) as [t|]; [destruct (nonempty t) eqn:E; [now apply nonempty_true|]|];
      destruct hv; discriminate.
  - destruct (kv_cs k) as [q|] eqn:Ec.
    + destruct (Qeq_bool q 0) eqn:E; simpl.
      * destruct hv; split; vm_compute; congruence.
      * destruct (Hcs q eq_refl) as [H0 H1]. split; [|exact H1].
        apply Qle_lteq in H0 as [H0|H0]; [exact H0|].
        assert (Qeq_bool q 0 = true) by (apply Qeq_bool_iff; symmetry; exact H0). congruence.
    + destruct hv; split; vm_compute; congruence.
  - destruct (kv_details k) as [t|]; [destruct (nonempty t) eqn:E; [now apply nonempty_true|]|];
      discriminate.
Qed.

(** *** Inputs without a brace *)

Lemma get_in (s : string) (i : nat) (a : ascii) :
  get i s = Some a -> In a (list_ascii_of_string s).
Proof.
  revert i; induction s as [|b s IH]; intros [|i] H; simpl in *; try discriminate.
  - injection H as <-. left. reflexivity.
  - right. exact (IH i H).
Qed.

Lemma exec_json_span_no_brace (s : string) (i : nat) :
  existsb (Ascii.eqb "{") (list_ascii_of_string s) = false -> exec_at s json_span i = None.
Proof.
  intro Hn. unfold exec_at, json_span, seqs, chr. cbn [m].
  destruct (get i s) as [a|] eqn:G; [|reflexivity].
  destruct (Ascii.eqb "{" a) eqn:E; [|reflexivity].
  apply get_in in G. exfalso.
  assert (existsb (Ascii.eqb "{") (list_ascii_of_string s) = true) as Ht
    by (apply existsb_exists; exists a; split; assumption).
  congruence.
Qed.

Lemma rmatch_json_span_no_brace (s : string) :
  existsb (Ascii.eqb "{") (list_ascii_of_string s) = false -> rmatch s json_span = None.
Proof.
  intro Hn. unfold rmatch, search.
  destruct (Nat.ltb (String.length s) 0); [reflexivity|].
  assert (forall f i, search_from s json_span f i = None) as ->; [|reflexivity].
  induction f as [|f IH]; intro i; simpl; rewrite exec_json_span_no_brace by exact Hn;
    [reflexivity|apply IH].
Qed.

(** *** The per-attempt budget check *)

Lemma prefix_app (p a b : string) : prefix p a = true -> prefix p (a ++ b) = true.
Proof.
  revert a; induction p as [|c p IH]; intros a H.
  - destruct (a ++ b); reflexivity.
  - destruct a as [|d a]; [discriminate|].
    simpl in *. destruct (ascii_dec c d); [apply IH; exact H|discriminate].
Qed.

Lemma includes_app (a b n : string) : includes a n = true -> includes (a ++ b) n = true.
Proof.
  induction a as [|c a IH]; intro H.
  - destruct n; [|discriminate]. destruct b; reflexivity.
  - simpl in *. apply orb_true_iff in H as [H|H].
    + pose proof (prefix_app n (String c a) b H) as H'. simpl in H'. rewrite H'. reflexivity.
    + rewrite (IH H). apply orb_true_r.
Qed.

Lemma timed_out_message (x : string) :
  is_timeout_message ("Audit process timed out after " ++ x) = true.
Proof.
  unfold is_timeout_message.
  rewrite (includes_app "Audit process timed out after " x "timed out" eq_refl).
  rewrite orb_true_r. reflexivity.
Qed.

Lemma checkTimeout_timed_out (cfg : config) (el : Z) (e : js_error) :
  checkTimeout cfg el = Some e -> is_timeout_message (message e) = true.
Proof.
  unfold checkTimeout.
  destruct (negb (enableTotalTimeout cfg) || (maxTotalTime cfg <=? 0)%Z); [discriminate|].
  destruct (maxTotalTime cfg <? el)%Z; [|discriminate].
  intro H. injection H as <-.
  exact (timed_out_message (show_thousandths (maxTotalTime cfg) ++ " seconds")).
Qed.

Lemma checkTimeout_disabled (cfg : config) (el : Z) :
  enableTotalTimeout cfg = false \/ (maxTotalTime cfg <= 0)%Z -> checkTimeout cfg el = None.
Proof.
  unfold checkTimeout. intros [H|H].
  - rewrite H. reflexivity.
  - apply Z.leb_le in H. rewrite H, orb_true_r. reflexivity.
Qed.

Lemma retry_loop_budget (cfg : config) (clock : nat -> Z) (chat : nat -> chat_outcome)
    (a : nat) (e0 : js_error)
    (Ha : a <= maxRetries cfg)
    (Hprev : forall b, b < a -> checkTimeout cfg (clock b) = None /\ exists e, chat b = ChatErr e)
    (Hfail : checkTimeout cfg (clock a) = Some e0) :
  forall n rc, rc <= a -> n = S (maxRetries cfg) - rc ->
  retry_loop cfg clock chat n rc =
    (inl e0, (concat (map RetryFacts.attempt_block (seq rc (a - rc))) ++ [TCheck])%list).
Proof.
  induction n as [|f IH]; intros rc Hrc Hn; [lia|].
  simpl. rewrite (proj2 (Nat.leb_le rc (maxRetries cfg)) ltac:(lia)).
  destruct (Nat.eq_dec rc a) as [->|Hne].
  - rewrite Hfail, Nat.sub_diag. reflexivity.
  - destruct (Hprev rc ltac:(lia)) as [Hc [e He]]. rewrite Hc, He.
    rewrite (proj2 (Nat.ltb_ge (maxRetries cfg) (S rc)) ltac:(lia)).
    rewrite (IH (S rc) ltac:(lia) ltac:(lia)).
    replace (a - rc) with (S (a - S rc)) by lia. reflexivity.
Qed.

Lemma process_target_calls (cfg : config) (jr : string -> option string)
    (clock : nat -> Z) (chat : nat -> chat_outcome) (ts : string) (w : WebsiteData) :
  List.length (filter RetryFacts.is_chat (snd (process_target cfg jr clock chat ts w)))
    <= S (maxRetries cfg).
Proof.
  assert (E : snd (process_target cfg jr clock chat ts w) =
              snd (retry_loop cfg clock chat (S (maxRetries cfg)) 0)).
  { unfold process_target.
    destruct (retry_loop cfg clock chat (S (maxRetries cfg)) 0) as [[e|c] t]; reflexivity. }
  rewrite E.
  destruct (RetryFacts.retry_loop_shape cfg clock chat (S (maxRetries cfg)) 0 ltac:(lia) ltac:(lia))
    as (k & tail & Hk & Htr & Ht).
  rewrite Nat.sub_0_r in Htr.
  rewrite Htr, filter_app, length_app, RetryFacts.count_chats_blocks.
  destruct Ht as [-> | ->]; simpl; lia.
Qed.

(** *** Calls made by a run *)

Definition is_call (ev : event) : bool :=
  match ev with ETarget _ (TChat _) => true | _ => false end.

Lemma calls_map_target (t : nat) (tr : list tevent) :
  List.length (filter is_call (map (ETarget t) tr)) = List.length (filter RetryFacts.is_chat tr).
Proof. induction tr as [|ev tr IH]; simpl; [reflexivity|]. destruct ev; simpl; auto. Qed.

Lemma calls_app (l1 l2 : list event) :
  List.length (filter is_call (l1 ++ l2)) =
    List.length (filter is_call l1) + List.length (filter is_call l2).
Proof. rewrite filter_app, length_app. reflexivity. Qed.

Section RunBounds.
Variable cfg : config.
Variable jr : string -> option string.
Variable o : oracle.
Variable websites : list WebsiteData.

Lemma wave_calls_from (i m : nat) (l : list WebsiteData) :
  List.length (filter is_call (concat (mapi_from (fun j p => map (ETarget (i + j)) (snd p)) m
      (mapi_from (fun j w => process_target cfg jr (target_clock o (i + j)) (chat o (i + j))
                                (now o (i + j)) w) m l))))
    <= S (maxRetries cfg) * List.length l.
Proof.
  revert m; induction l as [|w l IH]; intro m; simpl; [lia|].
  rewrite calls_app, calls_map_target.
  pose proof (process_target_calls cfg jr (target_clock o (i + m)) (chat o (i + m))
                (now o (i + m)) w).
  specialize (IH (S m)). lia.
Qed.

Lemma length_wave (i : nat) :
  List.length (wave_tasks cfg jr o websites i) = Nat.min (batchSize cfg) (List.length websites - i).
Proof. unfold wave_tasks. rewrite length_mapi_from, length_firstn, length_skipn. reflexivity. Qed.

Lemma wave_calls (i : nat) :
  List.length (filter is_call (wave_trace i (wave_tasks cfg jr o websites i)))
    <= S (maxRetries cfg) * Nat.min (batchSize cfg) (List.length websites - i).
Proof.
  rewrite <- length_wave. unfold wave_trace, wave_tasks.
  rewrite length_mapi_from. apply wave_calls_from.
Qed.

Lemma waves_calls :
  forall fuel k results,
  (forall t ev, In (ETarget t ev) (snd (waves cfg jr o websites fuel k results)) ->
                k * batchSize cfg <= t < List.length websites) /\
  List.length (filter is_call (snd (waves cfg jr o websites fuel k results)))
    <= S (maxRetries cfg) * (List.length websites - k * batchSize cfg).
Proof.
  induction fuel as [|f IH]; intros k results; simpl; [split; [intros t ev []|apply Nat.le_0_l]|].
  destruct (Nat.ltb (k * batchSize cfg) (List.length websites)) eqn:Hlt;
    [|split; [intros t ev []|apply Nat.le_0_l]].
  apply Nat.ltb_lt in Hlt.
  pose proof (wave_calls (k * batchSize cfg)) as Hw.
  pose proof (length_wave (k * batchSize cfg)) as Hl.
  assert (Hin : forall t ev, In (ETarget t ev) (wave_trace (k * batchSize cfg)
                                 (wave_tasks cfg jr o websites (k * batchSize cfg))) ->
                k * batchSize cfg <= t < List.length websites).
  { intros t ev H. apply in_wave_trace in H. rewrite Hl in H.
    destruct (Nat.min_spec (batchSize cfg) (List.length websites - k * batchSize cfg))
      as [[? E]|[? E]]; rewrite E in H; lia. }
  assert (Hmin : Nat.min (batchSize cfg) (List.length websites - k * batchSize cfg)
                 + (List.length websites - S k * batchSize cfg)
                 <= List.length websites - k * batchSize cfg).
  { rewrite Nat.mul_succ_l. clear -Hlt.
    destruct (Nat.min_spec (batchSize cfg) (List.length websites - k * batchSize cfg))
      as [[? ->]|[? ->]]; lia. }
  assert (Hmul := Nat.mul_le_mono_l _ _ (S (maxRetries cfg)) Hmin).
  rewrite Nat.mul_add_distr_l in Hmul.
  destruct (checkTimeout cfg (clock_before o k)).
  { split; [intros t ev [H|[]]; discriminate|apply Nat.le_0_l]. }
  destruct (promise_all (completion o k) (map fst (wave_tasks cfg jr o websites (k * batchSize cfg)))).
  2:{ split.
      - intros t ev [H|H]; [discriminate|exact (Hin t ev H)].
      - simpl. nia. }
  destruct (checkTimeout cfg (clock_after o k)).
  { split.
    - intros t ev [H|H]; [discriminate|].
      apply in_app_or in H as [H|[H|[]]]; [exact (Hin t ev H)|discriminate].
    - simpl. rewrite calls_app. simpl. nia. }
  destruct (IH (S k) (results ++ l)%list) as [IH1 IH2].
  destruct (waves cfg jr o websites f (S k) _) as [r tr]. simpl in IH1, IH2 |- *.
  split.
  - intros t ev [H|H]; [discriminate|].
    apply in_app_or in H as [H|[H|H]]; [exact (Hin t ev H)|discriminate|].
    apply IH1 in H. simpl in H. lia.
  - rewrite calls_app. simpl. lia.
Qed.

End RunBounds.

(** A run of four targets on a local service: every call answers. *)
Definition untimed_config : config := {|
  timeout := 60000;
  maxRetries := 2;
  healthCheckTimeout := 10000;
  batchSize := 3;
  maxTotalTime := 600000;
  enableTotalTimeout := false |}.

Definition slow_answers : oracle := {|
  health := None;
  clock_before := fun k => (700000 * Z.of_nat k)%Z;
  clock_after := fun k => (700000 * Z.of_nat (S k))%Z;
  target_clock := fun i a => (700000 * Z.of_nat (i / 3) + 61000 * Z.of_nat a)%Z;
  chat := fun i a => if Nat.eqb a 0 then ChatErr (Error "fetch failed") else ChatOk "{}";
  completion := fun _ => [1; 2; 0];
  now := fun _ => ParserFacts.ts0 |}.

Definition four_sites : list WebsiteData := DispatchFacts.demo_sites 4.

Definition slow_results : list AuditResult :=
  match fst (POST untimed_config ParserFacts.no_repair slow_answers (Body (Some four_sites))) with
  | Respond _ (RSuccess rs _ _) => rs
  | _ => []
  end.

(** ** Theorems *)

(** X1: whatever the text, the object built by attempt 4 has a boolean
    [has_age_verification], a non-empty string [verification_type], a
    number [confidence_score] in (0, 1] and a non-empty string [details]. *)
Theorem layer4_object_well_typed (content : string) :
  exists hv vt cs d,
    get_prop (key_value_pairs content) "has_age_verification" = JBool hv /\
    get_prop (key_value_pairs content) "verification_type" = str vt /\ vt <> "" /\
    get_prop (key_value_pairs content) "confidence_score" = JNum cs /\ (0 < cs <= 1)%Q /\
    get_prop (key_value_pairs content) "details" = str d /\ d <> "".
Proof.
  pose proof (with_defaults_ok content (extract content)
                (fun q => cs_loop_unit content [cs1; cs2; cs3; cs4] q)) as H.
  unfold key_value_pairs.
  destruct (with_defaults content (extract content)) as [[[hv vt] cs] d].
  destruct H as (H1 & [H2 H2'] & H3).
  exists hv, vt, cs, d.
  split; [reflexivity|]. split; [reflexivity|]. split; [exact H1|].
  split; [reflexivity|]. split; [split; assumption|]. split; [reflexivity|exact H3].
Qed.

(** X3: a response without any [{] makes [parseRobustJSON] return [null],
    and the record is the keyword fallback of lines 423-439: detection from
    the four phrases, type ['detected'] or ['none'], confidence 0.7 or 0.5,
    and the whole response as details. *)
Theorem no_brace_keyword_record (jr : string -> option string) (w : WebsiteData)
    (ts content : string)
    (Hn : existsb (Ascii.eqb "{") (list_ascii_of_string content) = false) :
  parseRobustJSON jr content = JNull /\
  result_of_content jr w ts content =
    {| website := url w;
       has_age_verification := JBool (infer_hv content);
       verification_type := str (if infer_hv content then "detected" else "none");
       confidence_score := JNum (if infer_hv content then 7 # 10 else 1 # 2);
       details := str content;
       timestamp := ts; result_name := name w; result_category := category w |}.
Proof.
  assert (P : parseRobustJSON jr content = JNull).
  { unfold parseRobustJSON. rewrite rmatch_json_span_no_brace by exact Hn. reflexivity. }
  split; [exact P|].
  unfold result_of_content. rewrite P. reflexivity.
Qed.

Lemma no_brace_keyword_record_witness :
  verification_type (result_of_content ParserFacts.no_repair ParserFacts.site ParserFacts.ts0
                       "The site shows an age gate before entry.") = str "detected".
Proof.
  destruct (no_brace_keyword_record ParserFacts.no_repair ParserFacts.site ParserFacts.ts0
              "The site shows an age gate before entry." eq_refl) as [_ H].
  rewrite H. reflexivity.
Defined.

(** X4: if the budget check before attempt [a] throws, the earlier
    attempts' calls having failed, the task makes exactly [a] calls and its
    record is a ['timeout'] record: the error of [checkTimeout] says
    ['timed out'], so the task's [catch] classifies it as a timeout. *)
Theorem budget_exhausted_timeout_record (cfg : config) (jr : string -> option string)
    (clock : nat -> Z) (chat : nat -> chat_outcome) (ts : string) (w : WebsiteData)
    (a : nat) (e0 : js_error)
    (Ha : a <= maxRetries cfg)
    (Hprev : forall b, b < a -> checkTimeout cfg (clock b) = None /\ exists e, chat b = ChatErr e)
    (Hfail : checkTimeout cfg (clock a) = Some e0) :
  snd (process_target cfg jr clock chat ts w) =
    (concat (map RetryFacts.attempt_block (seq 0 a)) ++ [TCheck])%list /\
  List.length (filter RetryFacts.is_chat (snd (process_target cfg jr clock chat ts w))) = a /\
  verification_type (fst (process_target cfg jr clock chat ts w)) = str "timeout" /\
  details (fst (process_target cfg jr clock chat ts w)) =
    str "Request timed out - Ollama service may be overloaded or unavailable" /\
  has_age_verification (fst (process_target cfg jr clock chat ts w)) = JBool false /\
  confidence_score (fst (process_target cfg jr clock chat ts w)) = JNum 0.
Proof.
  unfold process_target.
  rewrite (retry_loop_budget cfg clock chat a e0 Ha Hprev Hfail (S (maxRetries cfg)) 0
             ltac:(lia) ltac:(lia)).
  simpl. rewrite Nat.sub_0_r.
  unfold error_result. rewrite (checkTimeout_timed_out cfg (clock a) e0 Hfail).
  repeat split.
  rewrite filter_app, length_app, RetryFacts.count_chats_blocks. simpl. lia.
Qed.

Lemma budget_exhausted_timeout_record_witness :
  verification_type
    (fst (process_target OLLAMA_CONFIG ParserFacts.no_repair
            (fun a => if Nat.eqb a 1 then 600001%Z else 0%Z)
            (fun _ => ChatErr (Error "fetch failed")) ParserFacts.ts0 ParserFacts.site))
  = str "timeout".
Proof.
  destruct (budget_exhausted_timeout_record OLLAMA_CONFIG ParserFacts.no_repair
              (fun a => if Nat.eqb a 1 then 600001%Z else 0%Z)
              (fun _ => ChatErr (Error "fetch failed")) ParserFacts.ts0 ParserFacts.site
              1 (Error "Audit process timed out after 600 seconds")
              ltac:(simpl; lia)
              ltac:(intros b Hb; assert (b = 0) as -> by lia;
                    split; [reflexivity|eexists; reflexivity])
              ltac:(vm_compute; reflexivity)) as (_ & _ & H & _).
  exact H.
Defined.

(** X6: with the total budget disabled ([enableTotalTimeout] false or
    [maxTotalTime <= 0], as the configuration's comment describes), a run
    whose health check passes and whose calls all settle always answers 200
    with one record per input, in input order. *)
Theorem budget_disabled_run_completes (cfg : config) (jr : string -> option string)
    (o : oracle) (websites : list WebsiteData)
    (Hoff : enableTotalTimeout cfg = false \/ (maxTotalTime cfg <= 0)%Z)
    (Hne : websites <> []) (Hh : health o = None) (Hbs : 0 < batchSize cfg)
    (Hcomp : forall k j, j < batchSize cfg -> In j (completion o k)) :
  fst (POST cfg jr o (Body (Some websites))) =
    Respond 200 (RSuccess (mapi_from (record_of cfg jr o) 0 websites)
                          (List.length websites) (List.length websites)).
Proof.
  pose proof (waves_total cfg jr o websites Hbs Hcomp
                (fun k _ => conj (checkTimeout_disabled cfg _ Hoff) (checkTimeout_disabled cfg _ Hoff))
                (S (List.length websites)) 0 [] ltac:(simpl; lia)) as Hw.
  rewrite DispatchFacts.POST_nonempty by exact Hne. rewrite Hh.
  destruct (waves cfg jr o websites (S (List.length websites)) 0 []) as [r t].
  simpl in Hw |- *. subst r.
  pose proof (length_records_from0 cfg jr o websites) as L.
  unfold records_from in *. simpl in *. rewrite L. reflexivity.
Qed.

Lemma budget_disabled_run_completes_witness :
  fst (POST untimed_config ParserFacts.no_repair slow_answers (Body (Some four_sites))) =
    Respond 200 (RSuccess (mapi_from (record_of untimed_config ParserFacts.no_repair slow_answers)
                                     0 four_sites) 4 4).
Proof.
  apply (budget_disabled_run_completes untimed_config ParserFacts.no_repair slow_answers
           four_sites).
  - left. reflexivity.
  - discriminate.
  - reflexivity.
  - simpl. lia.
  - intros k j Hj. simpl in Hj |- *. lia.
Defined.

(** X7: a 200 response always reports [totalWebsites] and
    [processedWebsites] equal to the number of inputs, and lists that many
    records. *)
Theorem success_counts (cfg : config) (jr : string -> option string) (o : oracle)
    (websites : list WebsiteData) (rs : list AuditResult) (total processed : nat)
    (H : fst (POST cfg jr o (Body (Some websites))) = Respond 200 (RSuccess rs total processed)) :
  total = List.length websites /\ processed = List.length websites /\
  List.length rs = List.length websites.
Proof.
  destruct websites as [|w0 ws] eqn:Ews; [discriminate|]. rewrite <- Ews in *.
  rewrite DispatchFacts.POST_nonempty in H by (rewrite Ews; discriminate).
  destruct (health o); [discriminate|].
  destruct (waves cfg jr o websites (S (List.length websites)) 0 []) as [r t] eqn:Ew.
  destruct r as [rs'| |]; simpl in H; try discriminate.
  injection H as <- <- <-.
  pose proof (waves_ok_records cfg jr o websites _ 0 [] rs' ltac:(rewrite Ew; reflexivity)) as Hr.
  simpl in Hr. subst rs'. rewrite length_records_from0. auto.
Qed.

Lemma success_counts_witness :
  List.length slow_results = 4.
Proof.
  destruct (success_counts untimed_config ParserFacts.no_repair slow_answers four_sites
              slow_results 4 4 ltac:(vm_compute; reflexivity)) as (_ & _ & H).
  exact H.
Defined.

(** X8: every call a run makes is for an input index, and a run makes at
    most [(maxRetries + 1) * websites.length] calls to the model. *)
Theorem run_calls_bounded (cfg : config) (jr : string -> option string) (o : oracle)
    (websites : list WebsiteData) :
  (forall t ev, In (ETarget t ev) (snd (POST cfg jr o (Body (Some websites)))) ->
                t < List.length websites) /\
  List.length (filter is_call (snd (POST cfg jr o (Body (Some websites)))))
    <= S (maxRetries cfg) * List.length websites.
Proof.
  destruct websites as [|w0 ws] eqn:Ews; [simpl; split; [intros t ev []|lia]|].
  rewrite <- Ews.
  rewrite DispatchFacts.POST_nonempty by (rewrite Ews; discriminate).
  destruct (health o); [simpl; split; [intros t ev [H|[]]; discriminate|lia]|].
  destruct (waves_calls cfg jr o websites (S (List.length websites)) 0 []) as [H1 H2].
  destruct (waves cfg jr o websites (S (List.length websites)) 0 []) as [r t].
  simpl in H1, H2 |- *. split.
  - intros t' ev [H|H]; [discriminate|]. apply H1 in H. lia.
  - rewrite Nat.sub_0_r in H2. exact H2.
Qed.

End RouteFacts.
